(** * cricket.py: a shallow embedding of the analysis pipeline

    The script is one linear batch job over two pandas tables:
    load, merge, sample, fill, recode, cluster, aggregate, export, plot.
    Each library call of the script is modelled by the function it
    computes on row-oriented tables; the two seeded pseudo-random calls
    ([DataFrame.sample] and [KMeans.fit_predict]) and the plotting
    back-end are parameters of the development.

    Numbers are exact rationals ([Qc]); floating-point rounding of the
    means is outside the model. *)

From Stdlib Require Import QArith Qcanon Qround Lqa Ascii String.
From stdpp Require Import base list numbers strings pretty gmap sorting.

(** ** Comparisons

    pandas sorts group keys and category levels; the sort orders are
    given by three-way comparisons. *)

Class Cmp (K : Type) := cmp : K → K → comparison.

Class CmpLaws (K : Type) `{Cmp K} := {
  cmp_eq : ∀ a b : K, cmp a b = Eq ↔ a = b;
  cmp_antisym : ∀ a b : K, cmp b a = CompOpp (cmp a b);
  cmp_trans : ∀ a b c : K, cmp a b = Lt → cmp b c = Lt → cmp a c = Lt
}.

Global Instance nat_cmp : Cmp nat := Nat.compare.

Global Instance Qc_cmp : Cmp Qc := Qccompare.

Global Instance string_cmp : Cmp string := String.compare.

(** Keys made of several columns are compared column by column. *)
Global Instance prod_cmp `{Cmp A, Cmp B} : Cmp (A * B) := λ x y,
  match cmp x.1 y.1 with
  | Eq => cmp x.2 y.2
  | o => o
  end.

(** ** Data model *)

(** A value of an [object] column: a number or a string.  A missing
    entry (NaN) of a column is [None]. *)
Inductive value :=
  | VNum (q : Qc)
  | VStr (s : string).

Abbreviation cell := (option value).

(** An entry of a numeric ([int64]/[float64]) column. *)
Abbreviation num := (option Qc).

Global Instance value_eq_dec : EqDecision value.
Proof. solve_decision. Defined.

(** Mixed columns sort numbers before strings (pandas' [safe_sort]). *)
Global Instance value_cmp : Cmp value := λ x y,
  match x, y with
  | VNum p, VNum q => cmp p q
  | VNum _, VStr _ => Lt
  | VStr _, VNum _ => Gt
  | VStr s, VStr t => cmp s t
  end.

(** One row of [cleaned_match_info.csv]: the key and the other columns. *)
Record match_info := MatchInfo {
  m_match_id : cell;
  m_columns : list cell
}.

(** One row of the delivery table, and of every table derived from it.
    [K] is the representation of the two identifier columns: [value]
    for an [object] column, a category code once the column is
    categorical.  [others] holds the columns the script never names;
    the merge appends the match columns to it. *)
Record ball (K : Type) := Ball {
  match_id : cell;
  over : num;
  ball_number : num;
  batter : option K;
  bowler : option K;
  runs_batter : num;
  pressure_index : num;
  batter_strike_rate : num;
  bowler_economy : num;
  others : list cell
}.
Arguments Ball {K}.
Arguments match_id {K}.
Arguments over {K}.
Arguments ball_number {K}.
Arguments batter {K}.
Arguments bowler {K}.
Arguments runs_batter {K}.
Arguments pressure_index {K}.
Arguments batter_strike_rate {K}.
Arguments bowler_economy {K}.
Arguments others {K}.

(** ** Exceptions and the fatal tier *)

(** The exceptions of the script are instances of [Exception], the
    class both handlers name; process signals such as
    [KeyboardInterrupt] are not. *)
Inductive Exception :=
  | ValueError (msg : string)
  | TypeError (msg : string)
  | IndexError (msg : string)
  | KeyError (msg : string)
  | FileNotFoundError (msg : string)
  | OtherError (class_name msg : string).

(** [str(e)], what [print(..., e)] shows; a [KeyError] shows the
    [repr] of its message. *)
Definition str (e : Exception) : string :=
  match e with
  | KeyError msg => "'" +:+ msg +:+ "'"
  | ValueError msg | TypeError msg | IndexError msg
  | FileNotFoundError msg | OtherError _ msg => msg
  end.

Inductive result (A : Type) :=
  | Ok (a : A)
  | Raise (e : Exception).
Arguments Ok {A}.
Arguments Raise {A}.

Global Instance result_ret : MRet result := @Ok.
Global Instance result_bind : MBind result := λ A B f r,
  match r with
  | Ok a => f a
  | Raise e => Raise e
  end.

Global Instance result_fmap : FMap result := λ A B f r,
  match r with
  | Ok a => Ok (f a)
  | Raise e => Raise e
  end.

(** ** Merger *)

(** [delivery_df.merge(match_df, on='match_id')]: the inner join, in the
    order of the left table. *)
Definition join_row (d : ball value) (m : match_info) : ball value :=
  Ball (match_id d) (over d) (ball_number d) (batter d) (bowler d)
       (runs_batter d) (pressure_index d) (batter_strike_rate d)
       (bowler_economy d) (others d ++ m_columns m).

Definition merge (delivery_df : list (ball value)) (match_df : list match_info)
    : list (ball value) :=
  d ← delivery_df;
  join_row d <$> filter (λ m, m_match_id m = match_id d) match_df.

(** ** Sampler *)

(** Python's [round]: to the nearest integer, ties to the even one. *)
Definition round (q : Qc) : Z :=
  let f := Qfloor q in
  match cmp (q - Qc_of_Z f)%Qc (Q2Qc (1 # 2)) with
  | Lt => f
  | Gt => (f + 1)%Z
  | Eq => if Z.even f then f else (f + 1)%Z
  end.

(** [df.take(locs)]: positional selection; a position outside the
    table raises. *)
Definition take_rows {R} (df : list R) (locs : list nat) : result (list R) :=
  match mapM (λ i, df !! i) locs with
  | Some rows => Ok rows
  | None => Raise (IndexError "indices are out-of-bounds")
  end.

(** ** Missing values *)

Definition fill_cell (c : cell) : cell :=
  match c with
  | None => Some (VNum 0%Qc)
  | Some v => Some v
  end.

Definition fill_num (x : num) : num :=
  match x with
  | None => Some 0%Qc
  | Some q => Some q
  end.

(** [df.fillna(0, inplace=True)] on one row: every column. *)
Definition fillna_row (r : ball value) : ball value :=
  Ball (fill_cell (match_id r)) (fill_num (over r)) (fill_num (ball_number r))
       (fill_cell (batter r)) (fill_cell (bowler r))
       (fill_num (runs_batter r)) (fill_num (pressure_index r))
       (fill_num (batter_strike_rate r)) (fill_num (bowler_economy r))
       (fill_cell <$> others r).

Definition fillna (df : list (ball value)) : list (ball value) :=
  fillna_row <$> df.

(** ** Categorical columns

    [astype('category')] stores a column as the sorted list of its
    distinct non-missing values (the categories) and, per row, the
    position of the row's value in that list (the code; pandas writes
    the missing code as -1, here [None]). *)
Section Categories.
Context `{Cmp V}.

Fixpoint insert_level (v : V) (l : list V) : list V :=
  match l with
  | [] => [v]
  | x :: l' =>
      match cmp v x with
      | Eq => l
      | Lt => v :: l
      | Gt => x :: insert_level v l'
      end
  end.

Definition categories (column : list (option V)) : list V :=
  foldr (λ c acc, match c with Some v => insert_level v acc | None => acc end)
        [] column.

Fixpoint code_of (levels : list V) (v : V) : option nat :=
  match levels with
  | [] => None
  | x :: l' =>
      match cmp v x with
      | Eq => Some 0
      | _ => S <$> code_of l' v
      end
  end.
End Categories.

(** The row after [df['batter'] = df['batter'].astype('category')] and
    the same for [bowler]. *)
Definition recode_row (batters bowlers : list value) (r : ball value)
    : ball nat :=
  Ball (match_id r) (over r) (ball_number r)
       (batter r ≫= code_of batters) (bowler r ≫= code_of bowlers)
       (runs_batter r) (pressure_index r) (batter_strike_rate r)
       (bowler_economy r) (others r).

(** What a categorical entry stands for. *)
Definition decode (levels : list value) (code : nat) : cell := levels !! code.

(** ** Group-by

    [df.groupby(keys, observed=True)]: one group per key that occurs,
    groups in ascending key order, rows with a missing key left out,
    and inside a group the rows in table order. *)
Section GroupBy.
Context {K R : Type} `{Cmp K}.

Fixpoint add_row (k : K) (r : R) (gs : list (K * list R)) : list (K * list R) :=
  match gs with
  | [] => [(k, [r])]
  | (k', g) :: gs' =>
      match cmp k k' with
      | Eq => (k', r :: g) :: gs'
      | Lt => (k, [r]) :: gs
      | Gt => (k', g) :: add_row k r gs'
      end
  end.

Definition groupby (key : R → option K) (df : list R) : list (K * list R) :=
  foldr (λ r gs, match key r with Some k => add_row k r gs | None => gs end)
        [] df.

(** Look a key up in a keyed series. *)
Fixpoint get {A} (k : K) (s : list (K * A)) : option A :=
  match s with
  | [] => None
  | (k', a) :: s' => match cmp k k' with Eq => Some a | _ => get k s' end
  end.
End GroupBy.

(** The distinct values of a list, ascending. *)
Definition sort_unique `{Cmp V} (l : list V) : list V :=
  categories (Some <$> l).

(** ** Column reductions (all skip missing entries, as pandas does) *)

Definition dropna (xs : list num) : list Qc := omap id xs.

Definition qsum (qs : list Qc) : Qc := foldr Qcplus 0%Qc qs.

Definition Qc_of_nat (n : nat) : Qc := Qc_of_Z (Z.of_nat n).

Definition sum (xs : list num) : Qc := qsum (dropna xs).

Definition count (xs : list num) : nat := length (dropna xs).

Definition mean (xs : list num) : num :=
  match dropna xs with
  | [] => None
  | qs => Some (qsum qs / Qc_of_nat (length qs))%Qc
  end.

(** ** Aggregator *)

(** A row of the clustered table: the delivery and its [delivery_type]. *)
Record clustered (K : Type) := Clustered {
  delivery : ball K;
  delivery_type : nat
}.
Arguments Clustered {K}.
Arguments delivery {K}.
Arguments delivery_type {K}.

Record batter_stat (K : Type) := BatterStat {
  bs_batter : K;
  bs_delivery_type : nat;
  total_runs : Qc;
  avg_runs : num;
  balls_faced : nat;
  avg_strike_rate : num
}.
Arguments BatterStat {K}.
Arguments bs_batter {K}.
Arguments bs_delivery_type {K}.
Arguments total_runs {K}.
Arguments avg_runs {K}.
Arguments balls_faced {K}.
Arguments avg_strike_rate {K}.

(** The wide bowler table: the delivery-type columns it has, and per
    bowler one count for each of these columns. *)
Record trends (K : Type) := Trends {
  columns : list nat;
  counts : list (K * list nat)
}.
Arguments Trends {K}.
Arguments columns {K}.
Arguments counts {K}.

Record pivot_table (K : Type) := PivotTable {
  pv_index : list K;
  pv_columns : list nat;
  pv_values : list (list num)
}.
Arguments PivotTable {K}.
Arguments pv_index {K}.
Arguments pv_columns {K}.
Arguments pv_values {K}.

Section Aggregator.
Context {K : Type} `{Cmp K, EqDecision K}.

Definition batter_key (r : clustered K) : option (K * nat) :=
  (λ b, (b, delivery_type r)) <$> batter (delivery r).

Definition bowler_key (r : clustered K) : option (K * nat) :=
  (λ b, (b, delivery_type r)) <$> bowler (delivery r).

Definition agg_batter (kg : K * nat * list (clustered K)) : batter_stat K :=
  let g := delivery <$> kg.2 in
  BatterStat kg.1.1 kg.1.2
    (sum (runs_batter <$> g)) (mean (runs_batter <$> g))
    (count (ball_number <$> g))
    (mean (batter_strike_rate <$> g)).

(** [df.groupby(['batter','delivery_type'], observed=True).agg(...)
    .reset_index()] with the flattened column names. *)
Definition batter_stats (df : list (clustered K)) : list (batter_stat K) :=
  agg_batter <$> groupby batter_key df.

(** [.size()] *)
Definition size (df : list (clustered K)) : list (K * nat * nat) :=
  (λ kg, (kg.1, length kg.2)) <$> groupby bowler_key df.

(** [.unstack(fill_value=...)]: the last index level becomes the
    columns; only levels that occur are kept. *)
Definition unstack (fill_value : nat) (s : list (K * nat * nat)) : trends K :=
  let index := sort_unique ((λ e, e.1.1) <$> s) in
  let cols := sort_unique ((λ e, e.1.2) <$> s) in
  Trends cols
    ((λ b, (b, (λ c, default fill_value (get (b, c) s)) <$> cols)) <$> index).

Definition bowler_trends (df : list (clustered K)) : trends K :=
  unstack 0 (size df).

(** [df.groupby('bowler', observed=True)['bowler_economy'].mean()] *)
Definition bowler_economy_mean (df : list (clustered K)) : list (K * num) :=
  (λ kg, (kg.1, mean (bowler_economy ∘ delivery <$> kg.2)))
    <$> groupby (bowler ∘ delivery) df.

(** ** Visualizer: the table work of the two chart steps *)

(** Insertion into a list sorted by descending value; equal values
    keep table order. *)
Fixpoint insert_desc (x : K * Qc) (l : list (K * Qc)) : list (K * Qc) :=
  match l with
  | [] => [x]
  | y :: l' =>
      if decide (x.2 < y.2)%Qc then y :: insert_desc x l' else x :: l
  end.

(** [Series.nlargest(n)] *)
Definition nlargest (n : nat) (s : list (K * Qc)) : list (K * Qc) :=
  take n (foldr insert_desc [] s).

(** [batter_stats.groupby('batter', observed=True)['total_runs'].sum()] *)
Definition runs_by_batter (stats : list (batter_stat K)) : list (K * Qc) :=
  (λ kg, (kg.1, sum (Some ∘ total_runs <$> kg.2)))
    <$> groupby (Some ∘ bs_batter) stats.

Definition top_batters (stats : list (batter_stat K)) : list K :=
  fst <$> nlargest 20 (runs_by_batter stats).

(** [Series.clip(upper=u)] on one entry. *)
Definition clip (upper : Qc) (x : num) : num :=
  (λ q, if decide (upper < q)%Qc then upper else q) <$> x.

Definition clip_row (s : batter_stat K) : batter_stat K :=
  BatterStat (bs_batter s) (bs_delivery_type s) (total_runs s) (avg_runs s)
             (balls_faced s) (clip (Q2Qc 250) (avg_strike_rate s)).

Definition top_batter_stats (stats : list (batter_stat K)) : list (batter_stat K) :=
  clip_row <$> filter (λ s, bs_batter s ∈ top_batters stats) stats.

Definition pivot_key (s : batter_stat K) : K * nat :=
  (bs_batter s, bs_delivery_type s).

(** [DataFrame.pivot(index="batter", columns="delivery_type",
    values="avg_strike_rate")]: a repeated (index, column) pair
    raises; absent pairs are missing entries of the matrix. *)
Definition pivot (stats : list (batter_stat K)) : result (pivot_table K) :=
  if decide (NoDup (pivot_key <$> stats)) then
    let index := sort_unique (bs_batter <$> stats) in
    let cols := sort_unique (bs_delivery_type <$> stats) in
    let entries := (λ s, (pivot_key s, avg_strike_rate s)) <$> stats in
    Ok (PivotTable index cols
          ((λ b, (λ c, get (b, c) entries ≫= id) <$> cols) <$> index))
  else Raise (ValueError "Index contains duplicate entries, cannot reshape").

Definition position (c : nat) (cols : list nat) : option nat :=
  fst <$> list_find (λ c', c' = c) cols.

Definition show_list (l : list nat) : string :=
  "[" +:+ String.concat ", " (pretty <$> l) +:+ "]".

(** [bowler_trends[[0, 1, 2, 3]]]: selecting a column the table does
    not have raises. *)
Definition select (wanted : list nat) (t : trends K) : result (list (list nat)) :=
  match mapM (M:=option) (λ c, position c (columns t)) wanted with
  | Some positions =>
      Ok ((λ row : K * list nat, omap (λ p, row.2 !! p) positions) <$> counts t)
  | None =>
      Raise (KeyError (show_list (filter (λ c, c ∉ columns t) wanted)
                       +:+ " not in index"))
  end.

(** [bowler_trends['total'] = bowler_trends[[0, 1, 2, 3]].sum(axis=1)] *)
Definition with_total (t : trends K) : result (list (K * list nat * nat)) :=
  selected ← select [0; 1; 2; 3] t;
  mret (zip_with (λ row cs, (row, foldr Nat.add 0 cs)) (counts t) selected).
End Aggregator.

(** ** The process: files, standard output, exceptions *)

Inductive content :=
  | MatchCsv (rows : list match_info)
  | DeliveryCsv (rows : list (ball value))
  | BatterCsv (rows : list (batter_stat cell))
  | TrendsCsv (table : trends cell)
  | EconomyCsv (rows : list (cell * num))
  | Png (image : string).

Record World := MkWorld {
  files : gmap string content;
  stdout : list string
}.

(** A statement of the script: it changes the world and either
    completes or raises. *)
Definition M (A : Type) : Type := World → World * result A.

Global Instance M_ret : MRet M := λ A a w, (w, Ok a).
Global Instance M_bind : MBind M := λ A B f m w,
  match m w with
  | (w', Ok a) => f a w'
  | (w', Raise e) => (w', Raise e)
  end.

Definition lift {A} (r : result A) : M A := λ w, (w, r).

(** [print] and a write to a path, when the operating system does not
    refuse them; [print_under] and [write_file_under] further down are
    the operations that can be refused. *)
Definition print (line : string) : M unit := λ w,
  (MkWorld (files w) (stdout w ++ [line]), Ok tt).

Definition write_file (path : string) (c : content) : M unit := λ w,
  (MkWorld (<[path := c]> (files w)) (stdout w), Ok tt).

(** [try: body except Exception as e: handler] *)
Definition try_except (body : M unit) (handler : Exception → M unit) : M unit :=
  λ w, match body w with
       | (w', Raise e) => handler e w'
       | (w', Ok tt) => (w', Ok tt)
       end.

(** ** Loader *)

Definition read_match_info (path : string) : M (list match_info) := λ w,
  match files w !! path with
  | Some (MatchCsv rows) => (w, Ok rows)
  | Some _ => (w, Raise (ValueError "Error tokenizing data"))
  | None => (w, Raise (FileNotFoundError path))
  end.

Definition read_deliveries (path : string) : M (list (ball value)) := λ w,
  match files w !! path with
  | Some (DeliveryCsv rows) => (w, Ok rows)
  | Some _ => (w, Raise (ValueError "Error tokenizing data"))
  | None => (w, Raise (FileNotFoundError path))
  end.

(** ** Exporter: [to_csv] writes the values the categorical codes stand for *)

Definition export_batter {K} (dec : K → cell) (s : batter_stat K) : batter_stat cell :=
  BatterStat (dec (bs_batter s)) (bs_delivery_type s) (total_runs s) (avg_runs s)
             (balls_faced s) (avg_strike_rate s).

Definition export_trends {K} (dec : K → cell) (t : trends K) : trends cell :=
  Trends (columns t) (prod_map dec id <$> counts t).

Definition export_economy {K} (dec : K → cell) (e : K * num) : cell * num :=
  (dec e.1, e.2).

Definition export_pivot {K} (dec : K → cell) (p : pivot_table K) : pivot_table cell :=
  PivotTable (dec <$> pv_index p) (pv_columns p) (pv_values p).

(** The three aggregate tables as they are written. *)
Definition outputs : Type :=
  list (batter_stat cell) * trends cell * list (cell * num).

Definition tables {K} `{Cmp K, EqDecision K}
    (dec_batter dec_bowler : K → cell) (df : list (clustered K)) : outputs :=
  (export_batter dec_batter <$> batter_stats df,
   export_trends dec_bowler (bowler_trends df),
   export_economy dec_bowler <$> bowler_economy_mean df).

(** ** The script *)
(** The libraries behind the script: numpy's generator
    ([RandomState(seed)] and the shuffle behind
    [choice(..., replace=False)]), scikit-learn
    ([StandardScaler().fit_transform] and
    [KMeans(n_clusters, random_state).fit_predict]) and
    seaborn/matplotlib (what lines 74-83 and 91-126 draw and save;
    each step opens its own figure, so a picture depends on the table
    it is drawn from only).  The messages of the exceptions are
    abbreviated. *)
Class Libraries := {
  RandomState : Type;
  seeded : Z → RandomState;
  permutation : RandomState → nat → list nat;
  matrix : Type;
  fit_transform : list (list num) → result matrix;
  fit_predict : nat → RandomState → matrix → result (list nat);
  plot_heatmap : pivot_table cell → result string;
  plot_bars : list (cell * list nat * nat) → result string
}.

Section Script.
Context `{Libraries}.

(** The generator a call uses: the one built from [random_state], or
    the process-wide one when no seed is passed.  [RandomState(seed)]
    accepts the seeds 0 .. 2**32 - 1 only. *)
Definition check_random_state (global : RandomState) (random_state : option Z)
    : result RandomState :=
  match random_state with
  | Some seed =>
      if decide (0 ≤ seed < 2 ^ 32)%Z then Ok (seeded seed)
      else Raise (ValueError "Seed must be between 0 and 2**32 - 1")
  | None => Ok global
  end.

Definition choice (g : RandomState) (a size : nat) : result (list nat) :=
  if decide (a < size) then
    Raise (ValueError "Cannot take a larger sample than population when 'replace=False'")
  else Ok (take size (permutation g a)).

(** [df.sample(frac=..., random_state=...)] *)
Definition sample {R} (global : RandomState) (frac : Qc) (random_state : option Z)
    (df : list R) : result (list R) :=
  rs ← check_random_state global random_state;
  let size := Z.to_nat (round (frac * Qc_of_nat (length df))%Qc) in
  locs ← choice rs (length df) size;
  take_rows df locs.

Definition features {K} (r : ball K) : list num :=
  [over r; ball_number r; pressure_index r; bowler_economy r].

(** [df['delivery_type'] = labels] *)
Definition assign {K} (df : list (ball K)) (labels : list nat)
    : result (list (clustered K)) :=
  if decide (length labels = length df) then Ok (zip_with Clustered df labels)
  else Raise (ValueError "Length of values does not match length of index").

(** Lines 29-34. *)
Definition cluster {K} (global : RandomState) (df : list (ball K))
    : result (list (clustered K)) :=
  X_scaled ← fit_transform (features <$> df);
  rs ← check_random_state global (Some 42%Z);
  labels ← fit_predict 4 rs X_scaled;
  assign df labels.

(** Lines 16-22: merge, sample, fill. *)
Definition prepare (global : RandomState)
    (match_df : list match_info) (delivery_df : list (ball value))
    : result (list (ball value)) :=
  df ← sample global (Q2Qc (3 # 10)) (Some 42%Z) (merge delivery_df match_df);
  mret (fillna df).

(** The in-memory table after line 34: the categories of the two
    recoded columns and the rows. *)
Record frame := Frame {
  batters : list value;
  bowlers : list value;
  rows : list (clustered nat)
}.

(** Lines 16-34. *)
Definition analysis (global : RandomState)
    (match_df : list match_info) (delivery_df : list (ball value))
    : result frame :=
  df ← prepare global match_df delivery_df;
  let batters := categories (batter <$> df) in
  let bowlers := categories (bowler <$> df) in
  rows ← cluster global (recode_row batters bowlers <$> df);
  mret (Frame batters bowlers rows).

Definition frame_tables (f : frame) : outputs :=
  tables (decode (batters f)) (decode (bowlers f)) (rows f).

(** Lines 60-85, the body of the first [try]. *)
Definition heatmap_step (f : frame) (stats : list (batter_stat nat)) : M unit :=
  pv ← lift (pivot (top_batter_stats stats));
  image ← lift (plot_heatmap (export_pivot (decode (batters f)) pv));
  write_file "batter_strike_rate_heatmap_top20.png" (Png image).

(** Lines 88-129, the body of the second [try]. *)
Definition bar_step (f : frame) (t : trends nat) : M unit :=
  totals ← lift (with_total t);
  image ← lift (plot_bars
                  ((λ r, (decode (bowlers f) r.1.1, r.1.2, r.2)) <$> totals));
  write_file "bowler_delivery_distribution_top20.png" (Png image).

Definition heatmap_failed (e : Exception) : M unit :=
  print ("⚠️ Strike rate heatmap generation failed: " +:+ str e).

Definition bar_failed (e : Exception) : M unit :=
  print ("⚠️ Horizontal bar chart generation failed: " +:+ str e).

(** Lines 60-129. *)
Definition visualize (f : frame) (stats : list (batter_stat nat))
    (t : trends nat) : M unit :=
  try_except (heatmap_step f stats) heatmap_failed;;
  try_except (bar_step f t) bar_failed.

(** Lines 53-57. *)
Definition export (out : outputs) : M unit :=
  write_file "output_batter_patterns.csv" (BatterCsv out.1.1);;
  write_file "output_bowler_trends.csv" (TrendsCsv out.1.2);;
  write_file "output_bowler_economy.csv" (EconomyCsv out.2);;
  print "✅ Analysis complete. CSVs saved.".

(** The whole script.  [global] is the state of the process-wide
    generator, different from run to run. *)
Definition main (global : RandomState) : M unit :=
  match_df ← read_match_info "cleaned_match_info.csv";
  delivery_df ← read_deliveries "cleaned_deliveries.csv";
  f ← lift (analysis global match_df delivery_df);
  export (frame_tables f);;
  visualize f (batter_stats (rows f)) (bowler_trends (rows f)).

(** The pipeline of the recoding claim: lines 25-26 left out, the
    identifier columns stay [object] columns. *)
Definition analysis_without_category (global : RandomState)
    (match_df : list match_info) (delivery_df : list (ball value))
    : result (list (clustered value)) :=
  df ← prepare global match_df delivery_df;
  cluster global df.
End Script.


(** ** Vocabulary of the properties *)

Definition ascending `{Cmp K} (l : list K) : Prop :=
  StronglySorted (λ a b, cmp a b = Lt) l.

Definition code (levels : list value) (v : value) : nat :=
  default 0 (code_of levels v).

(** The clustered table as pandas shows it: categorical entries read
    back as the values they stand for. *)
Definition decode_ball (batters bowlers : list value) (r : ball nat) : ball value :=
  Ball (match_id r) (over r) (ball_number r)
       (batter r ≫= decode batters) (bowler r ≫= decode bowlers)
       (runs_batter r) (pressure_index r) (batter_strike_rate r)
       (bowler_economy r) (others r).

Definition values (f : frame) : list (clustered value) :=
  (λ r, Clustered (decode_ball (batters f) (bowlers f) (delivery r))
                  (delivery_type r)) <$> rows f.

Definition recode_clustered (batters bowlers : list value) (r : clustered value)
    : clustered nat :=
  Clustered (recode_row batters bowlers (delivery r)) (delivery_type r).

(** All the columns of a row, as cells. *)
Definition cells (r : ball value) : list cell :=
  [match_id r; VNum <$> over r; VNum <$> ball_number r; batter r; bowler r;
   VNum <$> runs_batter r; VNum <$> pressure_index r;
   VNum <$> batter_strike_rate r; VNum <$> bowler_economy r] ++ others r.

(** No named column of the row is missing. *)
Definition complete (r : ball value) : Prop :=
  is_Some (batter r) ∧ is_Some (bowler r) ∧ is_Some (over r) ∧
  is_Some (ball_number r) ∧ is_Some (runs_batter r) ∧
  is_Some (pressure_index r) ∧ is_Some (batter_strike_rate r) ∧
  is_Some (bowler_economy r).

(** A numeric entry once missing entries are zero. *)
Definition or_zero (x : num) : Qc := default 0%Qc x.

(** ** A small back-end

    One instance of the libraries, used to run the script on concrete
    tables: a generator that is its seed, the reversing shuffle, no
    rescaling, a nearest-centre labelling whose centres are the first
    [n_clusters] samples, and plots that only refuse an empty matrix. *)
Definition distance2 (x y : list Qc) : Qc :=
  qsum (zip_with (λ a b, (a - b) * (a - b))%Qc x y).

Fixpoint argmin_from (best : nat) (least : Qc) (i : nat) (ds : list Qc) : nat :=
  match ds with
  | [] => best
  | d :: ds' =>
      if decide (d < least)%Qc then argmin_from i d (S i) ds'
      else argmin_from best least (S i) ds'
  end.

(** Position of the nearest centre, the first one on ties. *)
Definition nearest (centres : list (list Qc)) (x : list Qc) : nat :=
  match distance2 x <$> centres with
  | [] => 0
  | d :: ds => argmin_from 0 d 1 ds
  end.

Definition demo_fit_predict (n_clusters : nat) (g : Z) (X : list (list Qc))
    : result (list nat) :=
  if decide (n_clusters = 0 ∨ length X < n_clusters) then
    Raise (ValueError "n_samples should be >= n_clusters")
  else Ok (nearest (take n_clusters X) <$> X).

Definition demo_plot_heatmap (p : pivot_table cell) : result string :=
  match pv_index p with
  | [] => Raise (ValueError "zero-size array to reduction operation fmin which has no identity")
  | _ => Ok "heatmap"
  end.

Definition demo : Libraries := {|
  RandomState := Z;
  seeded := id;
  permutation := λ g n, reverse (seq 0 n);
  matrix := list (list Qc);
  fit_transform := λ X, Ok ((λ row : list num, default 0%Qc <$> row) <$> X);
  fit_predict := demo_fit_predict;
  plot_heatmap := demo_plot_heatmap;
  plot_bars := λ _, Ok "bars"
|}.

(** The picture a chart step saves, or the exception it raises. *)
Definition heatmap_image `{Libraries} (f : frame) (stats : list (batter_stat nat))
    : result string :=
  pv ← pivot (top_batter_stats stats);
  plot_heatmap (export_pivot (decode (batters f)) pv).

Definition bar_image `{Libraries} (f : frame) (t : trends nat) : result string :=
  totals ← with_total t;
  plot_bars ((λ r, (decode (bowlers f) r.1.1, r.1.2, r.2)) <$> totals).

Definition csv_outputs : list string :=
  ["output_batter_patterns.csv"; "output_bowler_trends.csv";
   "output_bowler_economy.csv"].

(** ** Concrete tables

    Twenty-one deliveries of two matches and one delivery of a match
    that is not in the match table; among the sampled rows one has no
    batter, one no strike rate and one a strike rate above the clip. *)
Definition number (z : Z) : num := Some (Qc_of_Z z).

Definition demo_ball (i : Z) : ball value :=
  Ball (Some (VNum (Qc_of_Z (if (i =? 20)%Z then 9 else i mod 2 + 1))))
       (number (i / 6)) (number (i mod 6 + 1))
       (if (i =? 16)%Z then None
        else Some (VStr (if Z.even i then "Kohli" else "Root")))
       (Some (VStr (if (i mod 3 =? 0)%Z then "Starc"
                    else if (i mod 3 =? 1)%Z then "Bumrah" else "Rabada")))
       (number (i mod 5)) (number ((i * 7) mod 11))
       (if (i =? 15)%Z then None
        else if (i =? 17)%Z then number 300 else number (100 + i))
       (number (6 + i mod 3))
       [Some (VNum (Qc_of_Z (i / 120 + 1)))].

Definition demo_deliveries : list (ball value) := demo_ball <$> seqZ 0 21.

Definition demo_matches : list match_info :=
  [MatchInfo (Some (VNum (Qc_of_Z 1))) [Some (VStr "Lord's"); None];
   MatchInfo (Some (VNum (Qc_of_Z 2))) [Some (VStr "Eden Gardens"); Some (VStr "D/N")];
   MatchInfo (Some (VNum (Qc_of_Z 3))) [Some (VStr "MCG"); None]].

Definition demo_world : World :=
  MkWorld (<["cleaned_match_info.csv" := MatchCsv demo_matches]>
             (<["cleaned_deliveries.csv" := DeliveryCsv demo_deliveries]> ∅))
          [].

(** The same inputs in another process: other files, earlier output. *)
Definition rerun_world : World :=
  MkWorld (<["output_batter_patterns.csv" := BatterCsv []]>
             (<["notes.txt" := Png "scratch"]> (files demo_world)))
          ["earlier output"].

(** The same back-end with a shuffle that depends on the generator:
    the positions rotated by the generator's state. *)
Definition rotating : Libraries := {|
  RandomState := Z;
  seeded := id;
  permutation := λ g n, rotate (Z.to_nat g) (seq 0 n);
  matrix := list (list Qc);
  fit_transform := λ X, Ok ((λ row : list num, default 0%Qc <$> row) <$> X);
  fit_predict := demo_fit_predict;
  plot_heatmap := demo_plot_heatmap;
  plot_bars := λ _, Ok "bars"
|}.

Definition demo_sample : list (ball value) :=
  match sample (H:=demo) 0%Z (Q2Qc (3 # 10)) (Some 42%Z)
               (merge demo_deliveries demo_matches) with
  | Ok df => df
  | Raise _ => []
  end.

Definition demo_frame : frame :=
  match analysis (H:=demo) 0%Z demo_matches demo_deliveries with
  | Ok f => f
  | Raise _ => Frame [] [] []
  end.

(** Fourteen deliveries that agree in every column. *)
Definition flat_deliveries : list (ball value) :=
  replicate 14
    (Ball (Some (VNum (Qc_of_Z 1))) (number 3) (number 2)
          (Some (VStr "Kohli")) (Some (VStr "Starc"))
          (number 4) (number 5) (number 150) (number 7) []).

Definition flat_frame : frame :=
  match analysis (H:=demo) 0%Z demo_matches flat_deliveries with
  | Ok f => f
  | Raise _ => Frame [] [] []
  end.

Definition demo_stats : list (batter_stat nat) := batter_stats (rows demo_frame).

(** The row of the heatmap's table whose strike rate was above 250. *)
Definition demo_clipped : batter_stat nat :=
  default (BatterStat 0 0 0%Qc None 0 None) (top_batter_stats demo_stats !! 5).


(** ** Vocabulary of the further properties *)

(** A series in descending order of its values. *)
Definition descending {K} (s : list (K * Qc)) : Prop :=
  StronglySorted (λ x y, (y.2 ≤ x.2)%Qc) s.

(** The total runs of a batter over the rows of the batter statistics. *)
Definition batter_total `{EqDecision K} (stats : list (batter_stat K)) (b : K) : Qc :=
  sum (Some ∘ total_runs <$> filter (λ st, bs_batter st = b) stats).

(** The warning lines of the two chart steps of a run. *)
Definition heatmap_warning `{Libraries} (f : frame) : list string :=
  match heatmap_image f (batter_stats (rows f)) with
  | Ok _ => []
  | Raise e => ["⚠️ Strike rate heatmap generation failed: " +:+ str e]
  end.

Definition bar_warning `{Libraries} (f : frame) : list string :=
  match bar_image f (bowler_trends (rows f)) with
  | Ok _ => []
  | Raise e => ["⚠️ Horizontal bar chart generation failed: " +:+ str e]
  end.

Definition output_paths : list string :=
  csv_outputs ++ ["batter_strike_rate_heatmap_top20.png";
                  "bowler_delivery_distribution_top20.png"].

(** ** Output operations that are refused

    [to_csv], [savefig] and [print] raise when the operating system
    refuses the operation: a directory that cannot be written, a full
    disk, a standard output that is closed or cannot encode the line.
    [Faults] names the operations refused during a run: for a path the
    exception of the write and what the failed write leaves at the
    path, if it leaves anything; for a line the exception of the
    print.  [write_file] and [print] are the operations when nothing
    is refused. *)
Record Faults := MkFaults {
  write_fault : string → option (Exception * option content);
  print_fault : string → option Exception
}.

Definition no_faults : Faults := MkFaults (λ _, None) (λ _, None).

Definition print_under (fl : Faults) (line : string) : M unit :=
  match print_fault fl line with
  | Some e => lift (Raise e)
  | None => print line
  end.

Definition write_file_under (fl : Faults) (path : string) (c : content) : M unit :=
  match write_fault fl path with
  | Some (e, remains) => λ w,
      (MkWorld (from_option (λ c', <[path := c']> (files w)) (files w) remains)
               (stdout w),
       Raise e)
  | None => write_file path c
  end.

(** The three tables with the paths they are written to, in the order
    of lines 53-55. *)
Definition csv_files (out : outputs) : list (string * content) :=
  [("output_batter_patterns.csv", BatterCsv out.1.1);
   ("output_bowler_trends.csv", TrendsCsv out.1.2);
   ("output_bowler_economy.csv", EconomyCsv out.2)].

Section Refused.
Context `{Libraries}.
Variable fl : Faults.

(** Lines 53-57. *)
Definition export_under (out : outputs) : M unit :=
  write_file_under fl "output_batter_patterns.csv" (BatterCsv out.1.1);;
  write_file_under fl "output_bowler_trends.csv" (TrendsCsv out.1.2);;
  write_file_under fl "output_bowler_economy.csv" (EconomyCsv out.2);;
  print_under fl "✅ Analysis complete. CSVs saved.".

(** Lines 60-83 and 88-126, the bodies of the two [try] blocks. *)
Definition heatmap_step_under (f : frame) (stats : list (batter_stat nat))
    : M unit :=
  pv ← lift (pivot (top_batter_stats stats));
  image ← lift (plot_heatmap (export_pivot (decode (batters f)) pv));
  write_file_under fl "batter_strike_rate_heatmap_top20.png" (Png image).

Definition bar_step_under (f : frame) (t : trends nat) : M unit :=
  totals ← lift (with_total t);
  image ← lift (plot_bars
                  ((λ r, (decode (bowlers f) r.1.1, r.1.2, r.2)) <$> totals));
  write_file_under fl "bowler_delivery_distribution_top20.png" (Png image).

(** Lines 60-129; the [print] of a handler is outside every [try]. *)
Definition visualize_under (f : frame) (stats : list (batter_stat nat))
    (t : trends nat) : M unit :=
  try_except (heatmap_step_under f stats)
    (λ e, print_under fl ("⚠️ Strike rate heatmap generation failed: " +:+ str e));;
  try_except (bar_step_under f t)
    (λ e, print_under fl ("⚠️ Horizontal bar chart generation failed: " +:+ str e)).

(** The whole script when output operations may be refused. *)
Definition main_under (global : RandomState) : M unit :=
  match_df ← read_match_info "cleaned_match_info.csv";
  delivery_df ← read_deliveries "cleaned_deliveries.csv";
  f ← lift (analysis global match_df delivery_df);
  export_under (frame_tables f);;
  visualize_under f (batter_stats (rows f)) (bowler_trends (rows f)).
End Refused.

(** A run in which the second [to_csv] is refused and leaves nothing. *)
Definition refused_trends : Faults :=
  MkFaults (λ path, if decide (path = "output_bowler_trends.csv")
                    then Some (OtherError "PermissionError" "Permission denied", None)
                    else None)
           (λ _, None).
(** * Properties *)

(** ** Laws of the comparisons *)

Section CmpFacts.
Context `{CmpLaws K}.

Lemma cmp_refl (a : K) : cmp a a = Eq.
Proof. by apply cmp_eq. Qed.

Lemma cmp_gt_lt (a b : K) : cmp a b = Gt ↔ cmp b a = Lt.
Proof. rewrite (cmp_antisym a b). destruct (cmp a b); simpl; split; congruence. Qed.

Lemma cmp_lt_irrefl (a : K) : cmp a a ≠ Lt.
Proof. rewrite cmp_refl. discriminate. Qed.

Lemma cmp_lt_ne (a b : K) : cmp a b = Lt → a ≠ b.
Proof. intros Hlt ->. by apply (cmp_lt_irrefl b). Qed.
End CmpFacts.

Global Instance nat_cmp_laws : CmpLaws nat.
Proof.
  split; unfold cmp, nat_cmp.
  - intros a b. apply Nat.compare_eq_iff.
  - intros a b. apply Nat.compare_antisym.
  - intros a b c. rewrite !Nat.compare_lt_iff. lia.
Qed.

Global Instance Qc_cmp_laws : CmpLaws Qc.
Proof.
  split; unfold cmp, Qc_cmp.
  - intros a b. symmetry. apply Qceq_alt.
  - intros a b. unfold Qccompare. symmetry. apply Qcompare_antisym.
  - intros a b c. rewrite <-!Qclt_alt. apply Qclt_trans.
Qed.

Lemma ascii_compare_trans (a b c : ascii) :
  Ascii.compare a b = Lt → Ascii.compare b c = Lt → Ascii.compare a c = Lt.
Proof. unfold Ascii.compare. rewrite !N.compare_lt_iff. lia. Qed.

Lemma ascii_compare_refl (a : ascii) : Ascii.compare a a = Eq.
Proof. unfold Ascii.compare. apply N.compare_refl. Qed.

Lemma string_compare_refl (s : string) : String.compare s s = Eq.
Proof. induction s as [|a s IH]; simpl; [done|]. by rewrite ascii_compare_refl. Qed.

Lemma string_compare_trans (s1 s2 s3 : string) :
  String.compare s1 s2 = Lt → String.compare s2 s3 = Lt →
  String.compare s1 s3 = Lt.
Proof.
  revert s2 s3. induction s1 as [|a s1 IH]; intros [|b s2] [|c s3]; simpl; try done.
  destruct (Ascii.compare a b) eqn:Hab; try done;
    destruct (Ascii.compare b c) eqn:Hbc; try done; intros H12 H23.
  - apply Ascii.compare_eq_iff in Hab, Hbc. subst.
    rewrite ascii_compare_refl. eauto.
  - apply Ascii.compare_eq_iff in Hab. subst. by rewrite Hbc.
  - apply Ascii.compare_eq_iff in Hbc. subst. by rewrite Hab.
  - by rewrite (ascii_compare_trans a b c).
Qed.

Global Instance string_cmp_laws : CmpLaws string.
Proof.
  split; unfold cmp, string_cmp.
  - intros a b. split; [apply String.compare_eq_iff|].
    intros ->. apply string_compare_refl.
  - intros a b. apply String.compare_antisym.
  - apply string_compare_trans.
Qed.

Lemma prod_cmp_unfold `{Cmp A, Cmp B} (a1 a2 : A) (b1 b2 : B) :
  cmp (a1, b1) (a2, b2) =
  match cmp a1 a2 with Eq => cmp b1 b2 | o => o end.
Proof. reflexivity. Qed.

Global Instance prod_cmp_laws `{CmpLaws A, CmpLaws B} : CmpLaws (A * B).
Proof.
  split.
  - intros [a1 b1] [a2 b2]. rewrite prod_cmp_unfold.
    destruct (cmp a1 a2) eqn:Ha.
    + apply cmp_eq in Ha as ->. rewrite cmp_eq. naive_solver.
    + split; [done|]. intros [= -> _]. by rewrite cmp_refl in Ha.
    + split; [done|]. intros [= -> _]. by rewrite cmp_refl in Ha.
  - intros [a1 b1] [a2 b2]. rewrite !prod_cmp_unfold.
    rewrite (cmp_antisym a1 a2). destruct (cmp a1 a2); simpl; try done.
    apply cmp_antisym.
  - intros [a1 b1] [a2 b2] [a3 b3]. rewrite !prod_cmp_unfold.
    destruct (cmp a1 a2) eqn:H12; try done;
      destruct (cmp a2 a3) eqn:H23; try done; intros Hx Hy.
    + apply cmp_eq in H12, H23. subst. rewrite cmp_refl. eauto using cmp_trans.
    + apply cmp_eq in H12. subst. by rewrite H23.
    + apply cmp_eq in H23. subst. by rewrite H12.
    + by rewrite (cmp_trans a1 a2 a3).
Qed.

Global Instance value_cmp_laws : CmpLaws value.
Proof.
  split.
  - intros [p|s] [q|t]; unfold cmp, value_cmp; try (split; done).
    + rewrite cmp_eq. naive_solver.
    + rewrite cmp_eq. naive_solver.
  - intros [p|s] [q|t]; unfold cmp, value_cmp; try done; apply cmp_antisym.
  - intros [p|s] [q|t] [r|u]; unfold cmp, value_cmp; try done; apply cmp_trans.
Qed.

(** ** Sorted levels and groups *)

Section LevelFacts.
Context `{CmpLaws K}.

Lemma elem_of_insert_level (x v : K) (l : list K) :
  x ∈ insert_level v l ↔ x = v ∨ x ∈ l.
Proof.
  induction l as [|y l IH]; simpl.
  - set_solver.
  - destruct (cmp v y) eqn:Hc.
    + apply cmp_eq in Hc as ->. set_solver.
    + set_solver.
    + rewrite !elem_of_cons, IH. naive_solver.
Qed.

Lemma insert_level_ascending (v : K) (l : list K) :
  ascending l → ascending (insert_level v l).
Proof.
  induction 1 as [|y l Hl IH Hy]; simpl.
  - repeat constructor.
  - destruct (cmp v y) eqn:Hc.
    + by constructor.
    + constructor; [by constructor|]. constructor; [done|].
      eapply Forall_impl; [exact Hy|]. intros z Hz. by eapply cmp_trans.
    + constructor; [done|]. apply Forall_forall. intros z Hz.
      apply elem_of_insert_level in Hz as [->|Hz].
      * by apply cmp_gt_lt.
      * by eapply Forall_forall in Hy.
Qed.

Lemma categories_ascending (column : list (option K)) :
  ascending (categories column).
Proof.
  induction column as [|[v|] column IH]; simpl; [constructor| |done].
  by apply insert_level_ascending.
Qed.

Lemma elem_of_categories (v : K) (column : list (option K)) :
  v ∈ categories column ↔ Some v ∈ column.
Proof.
  induction column as [|[x|] column IH]; simpl.
  - set_solver.
  - rewrite elem_of_insert_level, IH, elem_of_cons. naive_solver.
  - rewrite IH, elem_of_cons. naive_solver.
Qed.

Lemma ascending_NoDup (l : list K) : ascending l → NoDup l.
Proof.
  induction 1 as [|y l Hl IH Hy]; constructor; [|done].
  intros Hin. eapply Forall_forall in Hy; [|exact Hin].
  by apply cmp_lt_irrefl in Hy.
Qed.

Lemma sort_unique_ascending (l : list K) : ascending (sort_unique l).
Proof. apply categories_ascending. Qed.

Lemma elem_of_sort_unique (v : K) (l : list K) : v ∈ sort_unique l ↔ v ∈ l.
Proof.
  unfold sort_unique. rewrite elem_of_categories, list_elem_of_fmap.
  naive_solver.
Qed.

(** Two ascending lists with the same elements are the same list. *)
Lemma ascending_ext (l1 l2 : list K) :
  ascending l1 → ascending l2 → (∀ x, x ∈ l1 ↔ x ∈ l2) → l1 = l2.
Proof.
  intros H1. revert l2. induction H1 as [|a l1 Hl1 IH Ha]; intros l2 H2 Hext.
  - destruct l2 as [|b l2]; [done|]. specialize (Hext b). set_solver.
  - destruct H2 as [|b l2 Hl2 Hb].
    { specialize (Hext a). set_solver. }
    assert (a = b) as ->.
    { pose proof (proj1 (Hext a) ltac:(left)) as Hab.
      pose proof (proj2 (Hext b) ltac:(left)) as Hba.
      apply elem_of_cons in Hab as [->|Hab]; [done|].
      apply elem_of_cons in Hba as [->|Hba]; [done|].
      eapply Forall_forall in Ha; [|exact Hba].
      eapply Forall_forall in Hb; [|exact Hab].
      pose proof (cmp_trans _ _ _ Ha Hb) as Hc.
      by apply cmp_lt_irrefl in Hc. }
    f_equal. apply IH; [done|]. intros x. split; intros Hx.
    + pose proof (proj1 (Hext x) ltac:(by right)) as Hx'.
      apply elem_of_cons in Hx' as [->|]; [|done].
      eapply Forall_forall in Ha; [|exact Hx]. by apply cmp_lt_irrefl in Ha.
    + pose proof (proj2 (Hext x) ltac:(by right)) as Hx'.
      apply elem_of_cons in Hx' as [->|]; [|done].
      eapply Forall_forall in Hb; [|exact Hx]. by apply cmp_lt_irrefl in Hb.
Qed.
End LevelFacts.

Section GroupByFacts.
Context {K R : Type} `{CmpLaws K, EqDecision K}.
Implicit Types (k : K) (r : R) (gs : list (K * list R)).

Lemma add_row_keys k r gs : (add_row k r gs).*1 = insert_level k gs.*1.
Proof.
  induction gs as [|[k' g] gs IH]; [done|]. csimpl.
  destruct (cmp k k'); csimpl; by rewrite ?IH.
Qed.

Lemma groupby_keys (key : R → option K) (df : list R) :
  (groupby key df).*1 = categories (key <$> df).
Proof.
  induction df as [|r df IH]; simpl; [done|].
  destruct (key r); [|done]. by rewrite add_row_keys, IH.
Qed.

Lemma groupby_ascending (key : R → option K) (df : list R) :
  ascending (groupby key df).*1.
Proof. rewrite groupby_keys. apply categories_ascending. Qed.

Lemma get_below {A} k (s : list (K * A)) :
  Forall (λ k', cmp k k' = Lt) s.*1 → get k s = None.
Proof.
  induction s as [|[k' a] s IH]; simpl; [done|].
  intros [Hk Hs]%Forall_cons. rewrite Hk. by apply IH.
Qed.

Lemma get_elem_of {A} k (a : A) (s : list (K * A)) :
  ascending s.*1 → get k s = Some a ↔ (k, a) ∈ s.
Proof.
  induction s as [|[k' a'] s IH]; simpl.
  - set_solver.
  - intros [Hs Hk']%StronglySorted_inv. rewrite elem_of_cons.
    destruct (cmp k k') eqn:Hc.
    + apply cmp_eq in Hc as ->. split; [naive_solver|].
      intros [[=]|Hin]; [by subst|].
      eapply Forall_forall in Hk'; [|by apply (list_elem_of_fmap_2 fst) in Hin].
      by apply cmp_lt_irrefl in Hk'.
    + rewrite IH by done. split; [naive_solver|].
      intros [[=]|]; [subst|done]. by rewrite cmp_refl in Hc.
    + rewrite IH by done. split; [naive_solver|].
      intros [[=]|]; [subst|done]. by rewrite cmp_refl in Hc.
Qed.

Lemma get_add_row k k' r gs :
  ascending gs.*1 →
  get k' (add_row k r gs) =
    if decide (k' = k) then Some (r :: default [] (get k gs)) else get k' gs.
Proof.
  induction gs as [|[k1 g1] gs IH]; simpl.
  - intros _. case_decide as Hk; [subst; by rewrite cmp_refl|].
    destruct (cmp k' k) eqn:Hc; [|done..]. by apply cmp_eq in Hc.
  - intros [Hs Hk1]%StronglySorted_inv. destruct (cmp k k1) eqn:Hc; simpl.
    + apply cmp_eq in Hc as ->. case_decide as Hk.
      * subst. by rewrite cmp_refl.
      * destruct (cmp k' k1) eqn:Hc'; [|done..]. by apply cmp_eq in Hc'.
    + case_decide as Hk.
      * subst. rewrite cmp_refl, get_below; [done|].
        eapply Forall_impl; [exact Hk1|]. intros z Hz. by eapply cmp_trans.
      * destruct (cmp k' k) eqn:Hc'; [|done..]. by apply cmp_eq in Hc'.
    + destruct (cmp k' k1) eqn:Hc'.
      * apply cmp_eq in Hc' as ->. case_decide; [|done].
        subst. by rewrite cmp_refl in Hc.
      * rewrite IH by done. done.
      * rewrite IH by done. done.
Qed.

(** The group of a key is the sub-table of its rows. *)
Lemma groupby_get (key : R → option K) (df : list R) k :
  get k (groupby key df) =
    match filter (λ r, key r = Some k) df with
    | [] => None
    | g => Some g
    end.
Proof.
  induction df as [|r df IH]; simpl; [done|].
  rewrite filter_cons. destruct (key r) as [k'|] eqn:Hkey.
  - rewrite get_add_row by apply groupby_ascending.
    case_decide as Hk.
    + subst k'. rewrite decide_True by done. rewrite IH.
      by destruct (filter _ df).
    + rewrite decide_False by congruence. done.
  - rewrite decide_False by congruence. done.
Qed.

Lemma elem_of_groupby (key : R → option K) (df : list R) k (g : list R) :
  (k, g) ∈ groupby key df ↔ g = filter (λ r, key r = Some k) df ∧ g ≠ [].
Proof.
  rewrite <-get_elem_of by apply groupby_ascending. rewrite groupby_get.
  destruct (filter _ df); naive_solver.
Qed.

Lemma groupby_NoDup_keys (key : R → option K) (df : list R) :
  NoDup (groupby key df).*1.
Proof. apply ascending_NoDup, groupby_ascending. Qed.
End GroupByFacts.

(** ** Order embeddings

    Replacing keys by codes that compare the same way changes neither
    the groups nor their order. *)
Section Embedding.
Context {K K' : Type} `{CmpLaws K, CmpLaws K'}.
Variable enc : K → K'.
Variable P : K → Prop.
Hypothesis enc_cmp : ∀ a b, P a → P b → cmp (enc a) (enc b) = cmp a b.

Lemma insert_level_embed (v : K) (l : list K) :
  P v → Forall P l →
  insert_level (enc v) (enc <$> l) = enc <$> insert_level v l.
Proof.
  intros Hv. induction 1 as [|x l Hx Hl IH]; csimpl; [done|].
  rewrite enc_cmp by done. destruct (cmp v x); csimpl; by rewrite ?IH.
Qed.

Lemma insert_level_Forall (v : K) (l : list K) :
  P v → Forall P l → Forall P (insert_level v l).
Proof.
  intros Hv Hl. apply Forall_forall. intros x [->|Hx]%elem_of_insert_level; [done|].
  by eapply Forall_forall in Hl.
Qed.

Lemma sort_unique_embed (l : list K) :
  Forall P l → sort_unique (enc <$> l) = enc <$> sort_unique l.
Proof.
  unfold sort_unique. induction 1 as [|x l Hx Hl IH]; csimpl; [done|].
  rewrite IH. apply insert_level_embed; [done|].
  apply Forall_forall. intros y Hy. apply (elem_of_sort_unique y l) in Hy.
  by eapply Forall_forall in Hl.
Qed.

Lemma get_embed {A} (k : K) (s : list (K * A)) :
  P k → Forall P s.*1 → get (enc k) (prod_map enc id <$> s) = get k s.
Proof.
  intros Hk. induction s as [|[k' a] s IH]; csimpl; [done|].
  intros [Hk' Hs]%Forall_cons. rewrite enc_cmp by done.
  destruct (cmp k k'); auto.
Qed.

Context {R R' : Type}.
Variable f : R → R'.

Lemma add_row_embed (k : K) (r : R) (gs : list (K * list R)) :
  P k → Forall P gs.*1 →
  add_row (enc k) (f r) (prod_map enc (fmap (M:=list) f) <$> gs) =
  prod_map enc (fmap (M:=list) f) <$> add_row k r gs.
Proof.
  intros Hk. induction gs as [|[k' g] gs IH]; csimpl; [done|].
  intros [Hk' Hs]%Forall_cons. rewrite enc_cmp by done.
  destruct (cmp k k'); csimpl; by rewrite ?IH.
Qed.

Lemma groupby_embed (key : R → option K) (key' : R' → option K')
    (df : list R) :
  Forall (λ r, ∀ k, key r = Some k → P k) df →
  Forall (λ r, key' (f r) = enc <$> key r) df →
  groupby key' (f <$> df) = prod_map enc (fmap (M:=list) f) <$> groupby key df.
Proof.
  induction df as [|r df IH]; csimpl; [done|].
  intros [HP HPs]%Forall_cons [Hr Hrs]%Forall_cons.
  rewrite Hr, IH by done. destruct (key r) as [k|] eqn:Hkey; csimpl; [|done].
  apply add_row_embed; [by apply HP|].
  rewrite groupby_keys. apply Forall_forall.
  intros k' Hk'%elem_of_categories%list_elem_of_fmap.
  destruct Hk' as (r' & Hk' & Hr'). eapply Forall_forall in HPs; eauto.
Qed.
End Embedding.

(** The code of a level is its position; positions in an ascending
    list compare as the levels do. *)
Section Codes.
Context `{CmpLaws V}.

Lemma code_of_Some (l : list V) (v : V) (i : nat) :
  code_of l v = Some i → l !! i = Some v.
Proof.
  revert i. induction l as [|x l IH]; intros i; simpl; [done|].
  destruct (cmp v x) eqn:Hc.
  - apply cmp_eq in Hc as ->. by intros [= <-].
  - destruct (code_of l v) as [j|]; [|done]. intros [= <-]. by apply IH.
  - destruct (code_of l v) as [j|]; [|done]. intros [= <-]. by apply IH.
Qed.

Lemma code_of_elem_of (l : list V) (v : V) :
  v ∈ l → is_Some (code_of l v).
Proof.
  induction l as [|x l IH]; simpl; [by intros ?%elem_of_nil|].
  intros [->|Hv]%elem_of_cons.
  - by rewrite cmp_refl.
  - destruct (cmp v x); [done| |]; destruct (IH Hv) as [j ->]; done.
Qed.

Lemma code_of_cmp (l : list V) (a b : V) (i j : nat) :
  ascending l → code_of l a = Some i → code_of l b = Some j →
  cmp i j = cmp a b.
Proof.
  intros Hl. revert i j. induction Hl as [|x l Hl IH Hx]; intros i j; [done|].
  assert (∀ v n, code_of l v = Some n → cmp x v = Lt) as Hlt.
  { intros v n Hn%code_of_Some%list_elem_of_lookup_2.
    by eapply Forall_forall in Hx. }
  assert (∀ i', code_of l a = Some i' → ∀ j,
            (match cmp b x with Eq => Some 0 | _ => S <$> code_of l b end) = Some j →
            cmp (S i') j = cmp a b) as Hstep.
  { intros i' Hi j'. destruct (cmp b x) eqn:Hb.
    - apply cmp_eq in Hb as ->. intros [= <-].
      change (cmp (S i') 0) with Gt. symmetry. apply cmp_gt_lt. eauto.
    - destruct (code_of l b) as [n|] eqn:Hj; [|done]. intros [= <-].
      change (cmp (S i') (S n)) with (cmp i' n). eauto.
    - destruct (code_of l b) as [n|] eqn:Hj; [|done]. intros [= <-].
      change (cmp (S i') (S n)) with (cmp i' n). eauto. }
  simpl. destruct (cmp a x) eqn:Ha.
  - apply cmp_eq in Ha as ->. intros [= <-]. destruct (cmp b x) eqn:Hb.
    + apply cmp_eq in Hb as ->. intros [= <-]. by rewrite (cmp_refl x).
    + destruct (code_of l b) as [n|] eqn:Hj; [|done]. intros [= <-].
      change (cmp 0 (S n)) with Lt. symmetry. eauto.
    + destruct (code_of l b) as [n|] eqn:Hj; [|done]. intros [= <-].
      change (cmp 0 (S n)) with Lt. symmetry. eauto.
  - destruct (code_of l a) as [i'|] eqn:Hi; [|done]. intros [= <-]. eauto.
  - destruct (code_of l a) as [i'|] eqn:Hi; [|done]. intros [= <-]. eauto.
Qed.
End Codes.

Lemma code_cmp (levels : list value) (a b : value) :
  ascending levels → a ∈ levels → b ∈ levels →
  cmp (code levels a) (code levels b) = cmp a b.
Proof.
  intros Hl [i Hi]%code_of_elem_of [j Hj]%code_of_elem_of.
  unfold code. rewrite Hi, Hj. simpl. by eapply code_of_cmp.
Qed.

Lemma code_of_code (levels : list value) (v : value) :
  v ∈ levels → code_of levels v = Some (code levels v).
Proof. intros [i Hi]%code_of_elem_of. unfold code. by rewrite Hi. Qed.

Lemma decode_code (levels : list value) (v : value) :
  v ∈ levels → decode levels (code levels v) = Some v.
Proof.
  intros Hv. unfold decode. apply code_of_Some. by apply code_of_code.
Qed.

(** ** Recoding the identifier columns *)

Lemma zip_with_recode (batters bowlers : list value) (df : list (ball value))
    (labels : list nat) :
  zip_with Clustered (recode_row batters bowlers <$> df) labels =
  recode_clustered batters bowlers <$> zip_with Clustered df labels.
Proof.
  revert labels. induction df as [|r df IH]; intros [|l labels]; csimpl; [done..|].
  by rewrite IH.
Qed.

Lemma elem_of_zip_with_delivery {K} (df : list (ball K)) (labels : list nat)
    (r : clustered K) :
  r ∈ zip_with Clustered df labels → delivery r ∈ df.
Proof.
  intros (i & Hi)%list_elem_of_lookup.
  apply lookup_zip_with_Some in Hi as (d & l & -> & Hd & _).
  by eapply list_elem_of_lookup_2.
Qed.

Lemma bind_code_of (levels : list value) (c : cell) :
  (∀ v, c = Some v → v ∈ levels) →
  c ≫= code_of levels = code levels <$> c.
Proof.
  intros Hc. destruct c as [v|]; csimpl; [|done]. by apply code_of_code, Hc.
Qed.

Lemma bind_decode_code (levels : list value) (c : cell) :
  (∀ v, c = Some v → v ∈ levels) →
  (c ≫= code_of levels) ≫= decode levels = c.
Proof.
  intros Hc. rewrite bind_code_of by done. destruct c as [v|]; csimpl; [|done].
  by apply decode_code, Hc.
Qed.

Section Recoding.
Variable df : list (ball value).
Variable labels : list nat.

Local Abbreviation bats := (categories (batter <$> df)).
Local Abbreviation bowls := (categories (bowler <$> df)).
Local Abbreviation table := (zip_with Clustered df labels).
Local Abbreviation f := (recode_clustered bats bowls).

Lemma batter_in_levels (r : clustered value) (b : value) :
  r ∈ table → batter (delivery r) = Some b → b ∈ bats.
Proof.
  intros Hr%elem_of_zip_with_delivery Hb. apply elem_of_categories.
  rewrite <-Hb. by apply list_elem_of_fmap_2.
Qed.

Lemma bowler_in_levels (r : clustered value) (b : value) :
  r ∈ table → bowler (delivery r) = Some b → b ∈ bowls.
Proof.
  intros Hr%elem_of_zip_with_delivery Hb. apply elem_of_categories.
  rewrite <-Hb. by apply list_elem_of_fmap_2.
Qed.

(** Reading the recoded table back gives the table before recoding. *)
Lemma decode_recode (r : clustered value) :
  r ∈ table →
  Clustered (decode_ball bats bowls (delivery (f r))) (delivery_type (f r)) = r.
Proof.
  intros Hr. destruct r as [[] l]. unfold decode_ball; simpl.
  rewrite !bind_decode_code; [done|..]; intros v Hv.
  - by eapply bowler_in_levels.
  - by eapply batter_in_levels.
Qed.

Lemma groupby_batter_recode :
  groupby batter_key (f <$> table) =
  prod_map (prod_map (code bats) id) (fmap (M:=list) f) <$> groupby batter_key table.
Proof.
  apply (groupby_embed _ (λ k, k.1 ∈ bats)).
  - intros [a1 t1] [a2 t2] Ha1 Ha2.
    change (cmp (code bats a1, t1) (code bats a2, t2) = cmp (a1, t1) (a2, t2)).
    rewrite !prod_cmp_unfold.
    by rewrite code_cmp by (done || apply categories_ascending).
  - apply Forall_forall. intros r Hr [b t] Hk. unfold batter_key in Hk.
    destruct (batter (delivery r)) as [b'|] eqn:Hb; simplify_eq/=.
    by eapply batter_in_levels.
  - apply Forall_forall. intros r Hr. unfold batter_key; simpl.
    rewrite bind_code_of by (intros; by eapply batter_in_levels).
    by destruct (batter (delivery r)).
Qed.

Lemma groupby_bowler_recode :
  groupby bowler_key (f <$> table) =
  prod_map (prod_map (code bowls) id) (fmap (M:=list) f) <$> groupby bowler_key table.
Proof.
  apply (groupby_embed _ (λ k, k.1 ∈ bowls)).
  - intros [a1 t1] [a2 t2] Ha1 Ha2.
    change (cmp (code bowls a1, t1) (code bowls a2, t2) = cmp (a1, t1) (a2, t2)).
    rewrite !prod_cmp_unfold.
    by rewrite code_cmp by (done || apply categories_ascending).
  - apply Forall_forall. intros r Hr [b t] Hk. unfold bowler_key in Hk.
    destruct (bowler (delivery r)) as [b'|] eqn:Hb; simplify_eq/=.
    by eapply bowler_in_levels.
  - apply Forall_forall. intros r Hr. unfold bowler_key; simpl.
    rewrite bind_code_of by (intros; by eapply bowler_in_levels).
    by destruct (bowler (delivery r)).
Qed.

Lemma groupby_economy_recode :
  groupby (bowler ∘ delivery) (f <$> table) =
  prod_map (code bowls) (fmap (M:=list) f) <$> groupby (bowler ∘ delivery) table.
Proof.
  apply (groupby_embed _ (λ k, k ∈ bowls)).
  - intros a b Ha Hb. by apply code_cmp; [apply categories_ascending|..].
  - apply Forall_forall. intros r Hr b Hb. by eapply bowler_in_levels.
  - apply Forall_forall. intros r Hr. simpl.
    by rewrite bind_code_of by (intros; by eapply bowler_in_levels).
Qed.
End Recoding.

(** Unstacking commutes with an order embedding of the index level. *)
Section UnstackEmbedding.
Context {K K' : Type} `{CmpLaws K, CmpLaws K'}.
Variable enc : K → K'.
Variable P : K → Prop.
Hypothesis enc_cmp : ∀ a b, P a → P b → cmp (enc a) (enc b) = cmp a b.

Lemma unstack_embed (fill : nat) (s : list (K * nat * nat)) :
  Forall (λ e, P e.1.1) s →
  unstack fill (prod_map (prod_map enc id) id <$> s) =
  Trends (columns (unstack fill s)) (prod_map enc id <$> counts (unstack fill s)).
Proof.
  intros Hs. unfold unstack; simpl.
  assert ((λ e : K' * nat * nat, e.1.1) <$> (prod_map (prod_map enc id) id <$> s)
          = enc <$> ((λ e : K * nat * nat, e.1.1) <$> s)) as ->.
  { by rewrite <-!list_fmap_compose. }
  assert ((λ e : K' * nat * nat, e.1.2) <$> (prod_map (prod_map enc id) id <$> s)
          = (λ e : K * nat * nat, e.1.2) <$> s) as ->.
  { by rewrite <-!list_fmap_compose. }
  assert (Forall P ((λ e : K * nat * nat, e.1.1) <$> s)) as Hidx.
  { by apply Forall_fmap. }
  rewrite (sort_unique_embed enc P) by done.
  f_equal. rewrite <-!list_fmap_compose. apply list_fmap_ext.
  intros i b Hb%list_elem_of_lookup_2. simpl. f_equal.
  apply list_fmap_ext. intros j c _. f_equal.
  rewrite elem_of_sort_unique in Hb.
  eapply Forall_forall in Hidx; [|exact Hb].
  assert (∀ a b : K * nat, P a.1 → P b.1 →
            cmp (prod_map enc id a) (prod_map enc id b) = cmp a b) as Hpair.
  { intros [a1 t1] [a2 t2] Ha1 Ha2.
    change (cmp (enc a1, t1) (enc a2, t2) = cmp (a1, t1) (a2, t2)).
    rewrite !prod_cmp_unfold. by rewrite enc_cmp. }
  apply (get_embed _ (λ k : K * nat, P k.1) Hpair (b, c)); [done|].
  rewrite Forall_fmap. eapply Forall_impl; [exact Hs|]. by intros [[] ].
Qed.
End UnstackEmbedding.

Section RecodingTables.
Variable df : list (ball value).
Variable labels : list nat.

Local Abbreviation bats := (categories (batter <$> df)).
Local Abbreviation bowls := (categories (bowler <$> df)).
Local Abbreviation table := (zip_with Clustered df labels).
Local Abbreviation f := (recode_clustered bats bowls).

Lemma group_has_row {K} `{CmpLaws K, EqDecision K}
    (key : clustered value → option K) (k : K) (g : list (clustered value)) :
  (k, g) ∈ groupby key table → ∃ r, r ∈ table ∧ key r = Some k.
Proof.
  intros [-> Hne]%elem_of_groupby.
  destruct (filter _ _) as [|r g] eqn:Hg; [done|].
  assert (r ∈ filter (λ r, key r = Some k) table) as Hr by (rewrite Hg; left).
  apply list_elem_of_filter in Hr. naive_solver.
Qed.

Lemma batter_stats_recode :
  export_batter (decode bats) <$> batter_stats (f <$> table) =
  export_batter Some <$> batter_stats table.
Proof.
  unfold batter_stats. rewrite groupby_batter_recode, <-!list_fmap_compose.
  apply list_fmap_ext. intros i [[b t] g] Hg%list_elem_of_lookup_2.
  apply group_has_row in Hg as (r & Hr & Hk). unfold batter_key in Hk.
  destruct (batter (delivery r)) as [b'|] eqn:Hb; simplify_eq/=.
  unfold export_batter, agg_batter; simpl.
  rewrite <-!list_fmap_compose. f_equal.
  by eapply decode_code, batter_in_levels.
Qed.

Lemma size_recode :
  size (f <$> table) = prod_map (prod_map (code bowls) id) id <$> size table.
Proof.
  unfold size. rewrite groupby_bowler_recode, <-!list_fmap_compose.
  apply list_fmap_ext. intros i [[b t] g] _. simpl. by rewrite length_fmap.
Qed.

Lemma size_bowler_in_levels :
  Forall (λ e : value * nat * nat, e.1.1 ∈ bowls) (size table).
Proof.
  unfold size. rewrite Forall_fmap. apply Forall_forall.
  intros [[b t] g] Hg. simpl.
  apply group_has_row in Hg as (r & Hr & Hk). unfold bowler_key in Hk.
  destruct (bowler (delivery r)) as [b'|] eqn:Hb; simplify_eq/=.
  by eapply bowler_in_levels.
Qed.

Lemma bowler_trends_recode :
  export_trends (decode bowls) (bowler_trends (f <$> table)) =
  export_trends Some (bowler_trends table).
Proof.
  unfold bowler_trends. rewrite size_recode.
  rewrite (unstack_embed (code bowls) (λ b, b ∈ bowls)).
  - unfold export_trends; simpl. f_equal.
    rewrite <-list_fmap_compose. apply list_fmap_ext.
    intros i [b cs] Hb%list_elem_of_lookup_2. unfold prod_map; simpl. f_equal.
    apply decode_code.
    apply list_elem_of_fmap in Hb as (b' & [= -> _] & Hb').
    apply elem_of_sort_unique, list_elem_of_fmap in Hb' as (e & -> & He).
    pose proof size_bowler_in_levels as Hs.
    by eapply Forall_forall in Hs.
  - intros a b Ha Hb. by apply code_cmp; [apply categories_ascending|..].
  - apply size_bowler_in_levels.
Qed.

Lemma bowler_economy_recode :
  export_economy (decode bowls) <$> bowler_economy_mean (f <$> table) =
  export_economy Some <$> bowler_economy_mean table.
Proof.
  unfold bowler_economy_mean. rewrite groupby_economy_recode, <-!list_fmap_compose.
  apply list_fmap_ext. intros i [b g] Hg%list_elem_of_lookup_2.
  apply group_has_row in Hg as (r & Hr & Hk).
  unfold export_economy; simpl. rewrite <-!list_fmap_compose. f_equal.
  by eapply decode_code, bowler_in_levels.
Qed.

(** The written tables do not depend on the representation of the
    identifier columns. *)
Lemma tables_recode :
  tables (decode bats) (decode bowls)
         (zip_with Clustered (recode_row bats bowls <$> df) labels) =
  tables Some Some table.
Proof.
  rewrite zip_with_recode. unfold tables.
  by rewrite batter_stats_recode, bowler_trends_recode, bowler_economy_recode.
Qed.

Lemma values_recode :
  (λ r, Clustered (decode_ball bats bowls (delivery r)) (delivery_type r))
    <$> zip_with Clustered (recode_row bats bowls <$> df) labels = table.
Proof.
  rewrite zip_with_recode, <-list_fmap_compose.
  rewrite <-(list_fmap_id table) at 2. apply list_fmap_ext.
  intros i r Hr%list_elem_of_lookup_2. by apply (decode_recode df labels).
Qed.
End RecodingTables.

(** ** Reductions of complete columns *)

Lemma dropna_Some (qs : list Qc) : dropna (Some <$> qs) = qs.
Proof. unfold dropna. induction qs as [|q qs IH]; csimpl; by rewrite ?IH. Qed.

Lemma sum_Some (qs : list Qc) : sum (Some <$> qs) = qsum qs.
Proof. unfold sum. by rewrite dropna_Some. Qed.

Lemma count_Some (qs : list Qc) : count (Some <$> qs) = length qs.
Proof. unfold count. by rewrite dropna_Some. Qed.

Lemma mean_Some (qs : list Qc) :
  qs ≠ [] → mean (Some <$> qs) = Some (qsum qs / Qc_of_nat (length qs))%Qc.
Proof. unfold mean. rewrite dropna_Some. by destruct qs. Qed.

Lemma complete_column {A} (col : A → num) (l : list A) :
  Forall (λ a, is_Some (col a)) l → col <$> l = Some <$> (or_zero ∘ col <$> l).
Proof.
  induction 1 as [|a l [q Hq] Hl IH]; csimpl; [done|].
  rewrite IH. unfold or_zero. by rewrite Hq.
Qed.

(** ** What the fill leaves behind *)

Lemma fill_cell_spec (c : cell) :
  fill_cell c = Some (default (VNum 0%Qc) c).
Proof. by destruct c. Qed.

Lemma fill_num_spec (x : num) : fill_num x = Some (or_zero x).
Proof. by destruct x. Qed.

Lemma cells_fillna_row (r : ball value) :
  cells (fillna_row r) = fill_cell <$> cells r.
Proof.
  destruct r as [mid ov bn bat bowl runs pi sr econ rest]. unfold cells; csimpl.
  by destruct ov, bn, runs, pi, sr, econ.
Qed.

Lemma fillna_row_complete (r : ball value) : complete (fillna_row r).
Proof.
  unfold complete; simpl. rewrite !fill_cell_spec, !fill_num_spec. naive_solver.
Qed.

Lemma fillna_complete (df : list (ball value)) : Forall complete (fillna df).
Proof. apply Forall_fmap, Forall_forall. intros r _. apply fillna_row_complete. Qed.

(** ** The stages of the script *)

Lemma result_bind_Ok {A B} (r : result A) (k : A → result B) (b : B) :
  r ≫= k = Ok b ↔ ∃ a, r = Ok a ∧ k a = Ok b.
Proof. destruct r; simpl; naive_solver. Qed.

Section ScriptFacts.
Context `{Libraries}.

Lemma assign_Ok {K} (df : list (ball K)) (labels : list nat)
    (table : list (clustered K)) :
  assign df labels = Ok table ↔
  length labels = length df ∧ table = zip_with Clustered df labels.
Proof. unfold assign. case_decide; naive_solver. Qed.

Lemma assign_delivery_type {K} (df : list (ball K)) (labels : list nat) :
  length labels = length df →
  delivery_type <$> zip_with Clustered df labels = labels.
Proof.
  revert labels. induction df as [|r df IH]; intros [|l labels] ?;
    simplify_eq/=; [done|]. f_equal. auto.
Qed.

(** The script's seed is one numpy accepts. *)
Lemma check_random_state_42 (global : RandomState) :
  check_random_state global (Some 42%Z) = Ok (seeded 42%Z).
Proof. reflexivity. Qed.

Lemma cluster_seeded {K} (global : RandomState) (df : list (ball K)) :
  cluster global df =
  (X_scaled ← fit_transform (features <$> df);
   labels ← fit_predict 4 (seeded 42%Z) X_scaled;
   assign df labels).
Proof. unfold cluster. by destruct (fit_transform _). Qed.

Lemma cluster_Ok {K} (global : RandomState) (df : list (ball K))
    (table : list (clustered K)) :
  cluster global df = Ok table ↔
  ∃ X labels, fit_transform (features <$> df) = Ok X ∧
    fit_predict 4 (seeded 42%Z) X = Ok labels ∧
    length labels = length df ∧ table = zip_with Clustered df labels.
Proof.
  rewrite cluster_seeded. rewrite result_bind_Ok. setoid_rewrite result_bind_Ok.
  setoid_rewrite assign_Ok. simpl. naive_solver.
Qed.

Lemma cluster_recode (global : RandomState) (batters bowlers : list value)
    (df : list (ball value)) :
  cluster global (recode_row batters bowlers <$> df) =
  fmap (M:=list) (recode_clustered batters bowlers) <$> cluster global df.
Proof.
  rewrite !cluster_seeded, <-list_fmap_compose.
  change (features ∘ recode_row batters bowlers) with (@features value).
  destruct (fit_transform _) as [X|e]; simpl; [|done].
  destruct (fit_predict _ _ _) as [labels|e]; simpl; [|done].
  unfold assign. rewrite length_fmap. case_decide; simpl; [|done].
  by rewrite zip_with_recode.
Qed.

(** A run that reaches the aggregation: the filled sample, the labels,
    and what the frame and the written tables are in terms of them. *)
Lemma analysis_Ok (global : RandomState) (match_df : list match_info)
    (delivery_df : list (ball value)) (fr : frame) :
  analysis global match_df delivery_df = Ok fr →
  ∃ s labels,
    sample global (Q2Qc (3 # 10)) (Some 42%Z) (merge delivery_df match_df) = Ok s ∧
    length labels = length s ∧
    cluster global (fillna s) = Ok (zip_with Clustered (fillna s) labels) ∧
    delivery_type <$> rows fr = labels ∧
    values fr = zip_with Clustered (fillna s) labels ∧
    frame_tables fr = tables Some Some (zip_with Clustered (fillna s) labels).
Proof.
  unfold analysis, prepare. intros Hrun.
  apply result_bind_Ok in Hrun as (df & Hprep & Hcl).
  apply result_bind_Ok in Hprep as (s & Hs & [= <-]).
  apply result_bind_Ok in Hcl as (table & Hcl & [= <-]).
  rewrite cluster_recode in Hcl.
  destruct (cluster global (fillna s)) as [table'|] eqn:Hcl'; simplify_eq/=.
  apply cluster_Ok in Hcl' as (X & labels & HX & Hl & Hlen & ->).
  exists s, labels. split_and!; [done| | | | |].
  - unfold fillna in Hlen. by rewrite length_fmap in Hlen.
  - rewrite cluster_seeded, HX. simpl. rewrite Hl. simpl.
    by apply assign_Ok.
  - rewrite <-list_fmap_compose.
    change (delivery_type ∘ recode_clustered _ _) with (@delivery_type value).
    by apply assign_delivery_type.
  - unfold values; simpl. rewrite <-zip_with_recode. apply values_recode.
  - unfold frame_tables; simpl. rewrite <-zip_with_recode. apply tables_recode.
Qed.
End ScriptFacts.

(** ** The aggregates *)

Section AggregatorFacts.
Context {K : Type} `{CmpLaws K, EqDecision K}.
Implicit Types (table : list (clustered K)) (stats : list (batter_stat K)).

Lemma batter_key_Some (r : clustered K) (b : K) (t : nat) :
  batter_key r = Some (b, t) ↔
  batter (delivery r) = Some b ∧ delivery_type r = t.
Proof. unfold batter_key. destruct (batter (delivery r)); naive_solver. Qed.

Lemma bowler_key_Some (r : clustered K) (b : K) (t : nat) :
  bowler_key r = Some (b, t) ↔
  bowler (delivery r) = Some b ∧ delivery_type r = t.
Proof. unfold bowler_key. destruct (bowler (delivery r)); naive_solver. Qed.

(** A row of the batter statistics is the aggregate of the sub-table of
    its (batter, delivery type) pair, and that sub-table is not empty. *)
Lemma elem_of_batter_stats table (st : batter_stat K) :
  st ∈ batter_stats table ↔
  let g := filter (λ r, batter (delivery r) = Some (bs_batter st) ∧
                        delivery_type r = bs_delivery_type st) table in
  g ≠ [] ∧ st = agg_batter (bs_batter st, bs_delivery_type st, g).
Proof.
  unfold batter_stats. rewrite list_elem_of_fmap. split.
  - intros ([[b t] g] & -> & [-> Hne]%elem_of_groupby). simpl.
    rewrite <-(list_filter_iff _ _ table (λ r, batter_key_Some r b t)).
    done.
  - simpl. intros [Hne Hst].
    eexists. split; [exact Hst|]. apply elem_of_groupby.
    by rewrite (list_filter_iff _ _ table (λ r, batter_key_Some r _ _)).
Qed.

Lemma batter_stats_keys table :
  pivot_key <$> batter_stats table = (groupby batter_key table).*1.
Proof.
  unfold batter_stats. rewrite <-list_fmap_compose.
  apply list_fmap_ext. by intros i [[b t] g] _.
Qed.

(** One row per (batter, delivery type) pair. *)
Lemma batter_stats_NoDup table : NoDup (pivot_key <$> batter_stats table).
Proof. rewrite batter_stats_keys. apply groupby_NoDup_keys. Qed.

Lemma top_batter_stats_keys stats :
  pivot_key <$> top_batter_stats stats `sublist_of` pivot_key <$> stats.
Proof.
  unfold top_batter_stats. rewrite <-list_fmap_compose.
  change (pivot_key ∘ clip_row) with (@pivot_key K).
  apply fmap_sublist, sublist_filter.
Qed.

Lemma pivot_Ok stats :
  NoDup (pivot_key <$> stats) → ∃ pv, pivot stats = Ok pv.
Proof. intros Hnd. unfold pivot. rewrite decide_True by done. eauto. Qed.

Lemma clip_le (upper : Qc) (x : num) (q : Qc) :
  clip upper x = Some q → (q ≤ upper)%Qc.
Proof.
  destruct x as [p|]; [|done]. simpl. case_decide as Hp; intros [= <-].
  - apply Qcle_refl.
  - by apply Qcnot_lt_le.
Qed.

Lemma clip_above (upper : Qc) (q : Qc) :
  (upper < q)%Qc → clip upper (Some q) = Some upper.
Proof. intros Hq. simpl. by rewrite decide_True. Qed.

Lemma clip_below (upper : Qc) (q : Qc) :
  (q ≤ upper)%Qc → clip upper (Some q) = Some q.
Proof.
  intros Hq. simpl. rewrite decide_False; [done|]. by apply Qcle_not_lt.
Qed.

(** Entries of a keyed series that is looked up come from the series. *)
Lemma get_Some_elem_of {A} (k : K) (a : A) (s : list (K * A)) :
  get k s = Some a → (k, a) ∈ s.
Proof.
  induction s as [|[k' a'] s IH]; simpl; [done|].
  destruct (cmp k k') eqn:Hc; [|right; auto..].
  apply cmp_eq in Hc as ->. intros [= ->]. left.
Qed.
End AggregatorFacts.

Lemma or_zero_fill_num (x : num) : or_zero (fill_num x) = or_zero x.
Proof. by destruct x. Qed.

Lemma agg_batter_complete (b : value) (t : nat) (g : list (clustered value)) :
  Forall (complete ∘ delivery) g → g ≠ [] →
  let runs := or_zero ∘ runs_batter ∘ delivery <$> g in
  let rates := or_zero ∘ batter_strike_rate ∘ delivery <$> g in
  runs_batter ∘ delivery <$> g = Some <$> runs ∧
  batter_strike_rate ∘ delivery <$> g = Some <$> rates ∧
  agg_batter (b, t, g) =
    BatterStat b t (qsum runs) (Some (qsum runs / Qc_of_nat (length g))%Qc)
               (length g) (Some (qsum rates / Qc_of_nat (length g))%Qc).
Proof.
  intros Hg Hne. simpl.
  assert (runs_batter ∘ delivery <$> g
          = Some <$> (or_zero ∘ runs_batter ∘ delivery <$> g)) as Hruns.
  { apply (complete_column (runs_batter ∘ delivery)).
    eapply Forall_impl; [exact Hg|]. intros r Hr. apply Hr. }
  assert (batter_strike_rate ∘ delivery <$> g
          = Some <$> (or_zero ∘ batter_strike_rate ∘ delivery <$> g)) as Hrates.
  { apply (complete_column (batter_strike_rate ∘ delivery)).
    eapply Forall_impl; [exact Hg|]. intros r Hr. apply Hr. }
  assert (ball_number ∘ delivery <$> g
          = Some <$> (or_zero ∘ ball_number ∘ delivery <$> g)) as Hballs.
  { apply (complete_column (ball_number ∘ delivery)).
    eapply Forall_impl; [exact Hg|]. intros r Hr. apply Hr. }
  split_and!; [done..|].
  unfold agg_batter; simpl. rewrite <-!list_fmap_compose.
  rewrite Hruns, Hrates, Hballs.
  rewrite sum_Some, count_Some, !mean_Some, !length_fmap; [done|..];
    by destruct g.
Qed.

Lemma list_filter_fmap {A B} (f : A → B) (P : B → Prop)
    `{∀ x, Decision (P x)} (l : list A) :
  filter P (f <$> l) = f <$> filter (P ∘ f) l.
Proof.
  induction l as [|a l IH]; csimpl; [done|].
  rewrite !filter_cons. simpl. case_decide; csimpl; by rewrite IH.
Qed.

Section OutputTheorems.
Context `{Libraries}.

(** The batter rows that are written, in terms of the table pandas shows. *)
Lemma batter_patterns_core (global : RandomState)
    (match_df : list match_info) (delivery_df : list (ball value)) (fr : frame) :
  analysis global match_df delivery_df = Ok fr →
  ∀ st, st ∈ (frame_tables fr).1.1 →
    ∃ b, bs_batter st = Some b ∧
      let group := filter (λ r, batter (delivery r) = Some b ∧
                                delivery_type r = bs_delivery_type st)
                          (values fr) in
      let runs := or_zero ∘ runs_batter ∘ delivery <$> group in
      let rates := or_zero ∘ batter_strike_rate ∘ delivery <$> group in
      runs_batter ∘ delivery <$> group = Some <$> runs ∧
      batter_strike_rate ∘ delivery <$> group = Some <$> rates ∧
      group ≠ [] ∧
      balls_faced st = length group ∧
      total_runs st = qsum runs ∧
      avg_runs st = Some (qsum runs / Qc_of_nat (length group))%Qc ∧
      avg_strike_rate st = Some (qsum rates / Qc_of_nat (length group))%Qc.
Proof.
  intros (s & labels & _ & _ & _ & _ & -> & ->)%analysis_Ok.
  set (table := zip_with Clustered (fillna s) labels).
  assert (Forall (complete ∘ delivery) table) as Hcomplete.
  { apply Forall_forall. intros r Hr%elem_of_zip_with_delivery.
    pose proof (fillna_complete s) as Hs. by eapply Forall_forall in Hs. }
  unfold tables; simpl.
  intros st (st0 & -> & Hst0)%list_elem_of_fmap.
  apply elem_of_batter_stats in Hst0 as [Hne Hagg].
  exists (bs_batter st0). split; [done|]. simpl.
  set (g := filter _ table) in *.
  destruct (agg_batter_complete (bs_batter st0) (bs_delivery_type st0) g)
    as (Hruns & Hrates & Hrow); [|done|].
  { apply Forall_forall. intros r [_ Hr]%list_elem_of_filter.
    by eapply Forall_forall in Hcomplete. }
  rewrite Hrow in Hagg.
  split_and!; [exact Hruns|exact Hrates|done|by rewrite Hagg..].
Qed.

Lemma values_complete (global : RandomState)
    (match_df : list match_info) (delivery_df : list (ball value)) (fr : frame) :
  analysis global match_df delivery_df = Ok fr →
  Forall (complete ∘ delivery) (values fr).
Proof.
  intros (s & labels & _ & _ & _ & _ & -> & _)%analysis_Ok.
  apply Forall_forall. intros r Hr%elem_of_zip_with_delivery.
  pose proof (fillna_complete s) as Hs. by eapply Forall_forall in Hs.
Qed.

Lemma batter_patterns_complete (global : RandomState)
    (match_df : list match_info) (delivery_df : list (ball value)) (fr : frame) :
  analysis global match_df delivery_df = Ok fr →
  ∀ r, r ∈ values fr →
    ∃ st, st ∈ (frame_tables fr).1.1 ∧
      bs_batter st = batter (delivery r) ∧
      bs_delivery_type st = delivery_type r.
Proof.
  intros Hrun. pose proof (values_complete _ _ _ _ Hrun) as Hcomplete.
  apply analysis_Ok in Hrun as (s & labels & _ & _ & _ & _ & Hv & ->).
  rewrite Hv in *. set (table := zip_with Clustered (fillna s) labels) in *.
  unfold tables; simpl. intros r Hr.
  assert (is_Some (batter (delivery r))) as [b Hb].
  { eapply Forall_forall in Hcomplete; [|exact Hr]. apply Hcomplete. }
  set (g := filter (λ r', batter (delivery r') = Some b ∧
                          delivery_type r' = delivery_type r) table).
  exists (export_batter Some (agg_batter (b, delivery_type r, g))).
  split; [|by rewrite Hb].
  apply list_elem_of_fmap_2, elem_of_batter_stats. simpl. split; [|done].
  intros Hg. assert (r ∈ g) as Hin by (by apply list_elem_of_filter).
  fold g in Hg. rewrite Hg in Hin. by apply elem_of_nil in Hin.
Qed.

(** C2. Every row of [output_batter_patterns.csv] belongs to a
    (batter, delivery type) pair that has rows in the sampled and
    clustered table; its [balls_faced] is the number of those rows, its
    [total_runs] the sum of their [runs_batter], its [avg_runs] their
    mean and its [avg_strike_rate] the mean of their
    [batter_strike_rate].  Every pair that has rows is in the file. *)
Theorem batter_patterns_rows (global : RandomState)
    (match_df : list match_info) (delivery_df : list (ball value)) (fr : frame) :
  analysis global match_df delivery_df = Ok fr →
  (∀ st, st ∈ (frame_tables fr).1.1 →
     ∃ b, bs_batter st = Some b ∧
       let group := filter (λ r, batter (delivery r) = Some b ∧
                                 delivery_type r = bs_delivery_type st)
                           (values fr) in
       ∃ runs rates : list Qc,
         runs_batter ∘ delivery <$> group = Some <$> runs ∧
         batter_strike_rate ∘ delivery <$> group = Some <$> rates ∧
         group ≠ [] ∧
         balls_faced st = length group ∧
         total_runs st = qsum runs ∧
         avg_runs st = Some (qsum runs / Qc_of_nat (length group))%Qc ∧
         avg_strike_rate st = Some (qsum rates / Qc_of_nat (length group))%Qc) ∧
  (∀ r, r ∈ values fr →
     ∃ st, st ∈ (frame_tables fr).1.1 ∧
       bs_batter st = batter (delivery r) ∧
       bs_delivery_type st = delivery_type r).
Proof.
  intros Hrun. split; [|by eapply batter_patterns_complete].
  intros st Hst.
  destruct (batter_patterns_core _ _ _ _ Hrun st Hst) as (b & Hb & Hst').
  exists b. split; [done|]. simpl. eexists _, _. exact Hst'.
Qed.

(** C7. Row for row, the table in memory is the sampled table with the
    missing entries of every column, the key and the unnamed columns
    included, replaced by the literal zero and the other entries left
    alone; no row is dropped, and in [output_batter_patterns.csv] the
    [avg_strike_rate] of a group is the mean over all the sampled rows
    of the group, a row whose [batter_strike_rate] was missing counting
    as 0. *)
Theorem fillna_zero_everywhere (global : RandomState)
    (match_df : list match_info) (delivery_df : list (ball value))
    (fr : frame) (s : list (ball value)) :
  analysis global match_df delivery_df = Ok fr →
  sample global (Q2Qc (3 # 10)) (Some 42%Z) (merge delivery_df match_df) = Ok s →
  Forall2 (λ r d, cells (delivery r)
                  = (λ c, Some (default (VNum 0%Qc) c)) <$> cells d)
          (values fr) s ∧
  (∀ r i c, cells r !! i = Some c →
     cells (fillna_row r) !! i = Some (Some (default (VNum 0%Qc) c))) ∧
  length (fillna s) = length s ∧
  length (values fr) = length s ∧
  let labelled := zip s (delivery_type <$> rows fr) in
  ∀ st, st ∈ (frame_tables fr).1.1 →
    let group := filter (λ rl, fill_cell (batter rl.1) = bs_batter st ∧
                               rl.2 = bs_delivery_type st) labelled in
    group ≠ [] ∧
    balls_faced st = length group ∧
    avg_strike_rate st =
      Some (qsum (or_zero ∘ batter_strike_rate ∘ fst <$> group)
            / Qc_of_nat (length group))%Qc.
Proof.
  intros Hrun Hs. pose proof (batter_patterns_core _ _ _ _ Hrun) as Hcore.
  apply analysis_Ok in Hrun as (s' & labels & Hs' & Hlen & _ & Hlabels & Hvals & _).
  rewrite Hs in Hs'. injection Hs' as <-.
  split_and!.
  - rewrite Hvals. apply Forall2_same_length_lookup_2.
    { rewrite length_zip_with. unfold fillna. rewrite length_fmap. lia. }
    intros i r d Hr Hd.
    apply lookup_zip_with_Some in Hr as (d' & l & -> & Hd' & _).
    unfold fillna in Hd'. rewrite list_lookup_fmap, Hd in Hd'.
    injection Hd' as <-. cbn [delivery]. rewrite cells_fillna_row.
    apply list_fmap_ext. intros j c _. apply fill_cell_spec.
  - intros r i c Hc. rewrite cells_fillna_row. apply list_lookup_fmap_Some.
    exists c. by rewrite fill_cell_spec.
  - unfold fillna. by rewrite length_fmap.
  - rewrite Hvals, length_zip_with. unfold fillna. rewrite length_fmap. lia.
  - rewrite Hlabels. intros labelled st Hst group.
    assert (values fr = (λ rl, Clustered (fillna_row rl.1) rl.2) <$> labelled)
      as Hview.
    { rewrite Hvals. unfold labelled, fillna.
      rewrite zip_with_fmap_l, zip_with_zip. apply list_fmap_ext. by intros ? []. }
    destruct (Hcore st Hst) as (b & Hb & _ & _ & Hne & Hballs & _ & _ & Hrate).
    simpl in Hne, Hballs, Hrate.
    rewrite Hview, list_filter_fmap in Hne, Hballs, Hrate.
    assert (filter ((λ r, batter (delivery r) = Some b ∧
                          delivery_type r = bs_delivery_type st)
                    ∘ (λ rl, Clustered (fillna_row rl.1) rl.2)) labelled = group)
      as Hgroup.
    { unfold group. apply list_filter_iff. intros [r l]. simpl.
      by rewrite Hb. }
    rewrite Hgroup in Hne, Hballs, Hrate.
    rewrite length_fmap in Hballs, Hrate.
    split_and!; [by destruct group|done|].
    rewrite Hrate, <-list_fmap_compose. do 3 f_equal.
    apply list_fmap_ext. intros i [r l] _. simpl. apply or_zero_fill_num.
Qed.
End OutputTheorems.

(** ** The wide bowler table *)

Lemma get_fmap `{Cmp K} {A B} (h : A → B) (k : K) (s : list (K * A)) :
  get k (prod_map id h <$> s) = h <$> get k s.
Proof.
  induction s as [|[k' a] s IH]; csimpl; [done|]. by destruct (cmp k k').
Qed.

Section TrendsFacts.
Context {K : Type} `{CmpLaws K, EqDecision K}.
Implicit Types (table : list (clustered K)).

Lemma size_get table (b : K) (c : nat) :
  default 0 (get (b, c) (size table)) =
  length (filter (λ r, bowler (delivery r) = Some b ∧ delivery_type r = c) table).
Proof.
  unfold size.
  change (λ kg : K * nat * list (clustered K), (kg.1, length kg.2))
    with (prod_map (@id (K * nat)%type) (@length (clustered K))).
  rewrite get_fmap, groupby_get.
  rewrite (list_filter_iff _ _ table (λ r, bowler_key_Some r b c)).
  by destruct (filter _ table).
Qed.

Lemma elem_of_size_keys table (b : K) (c : nat) :
  (b, c) ∈ (size table).*1 ↔
  ∃ r, r ∈ table ∧ bowler (delivery r) = Some b ∧ delivery_type r = c.
Proof.
  unfold size. rewrite <-list_fmap_compose.
  change (fst ∘ _) with (@fst (K * nat)%type (list (clustered K))).
  rewrite groupby_keys, elem_of_categories, list_elem_of_fmap.
  setoid_rewrite (λ r, symmetry (bowler_key_Some r b c)). naive_solver.
Qed.

Lemma bowler_trends_columns table (c : nat) :
  c ∈ columns (bowler_trends table) ↔
  ∃ r, r ∈ table ∧ is_Some (bowler (delivery r)) ∧ delivery_type r = c.
Proof.
  unfold bowler_trends, unstack; simpl.
  rewrite elem_of_sort_unique, list_elem_of_fmap. split.
  - intros ([[b c'] n] & -> & He). simpl.
    apply (list_elem_of_fmap_2 fst) in He. apply elem_of_size_keys in He.
    naive_solver.
  - intros (r & Hr & [b Hb] & <-).
    assert ((b, delivery_type r) ∈ (size table).*1) as Hk.
    { apply elem_of_size_keys. eauto. }
    apply list_elem_of_fmap in Hk as ([[b' c'] n] & [= <- <-] & He).
    by exists (b, delivery_type r, n).
Qed.

Lemma bowler_trends_index table (b : K) (cs : list nat) :
  (b, cs) ∈ counts (bowler_trends table) ↔
  (∃ r, r ∈ table ∧ bowler (delivery r) = Some b) ∧
  cs = (λ c, length (filter (λ r, bowler (delivery r) = Some b ∧
                                  delivery_type r = c) table))
         <$> columns (bowler_trends table).
Proof.
  unfold bowler_trends, unstack; simpl. rewrite list_elem_of_fmap.
  setoid_rewrite elem_of_sort_unique. setoid_rewrite list_elem_of_fmap.
  assert (∀ b', (λ c, default 0 (get (b', c) (size table))) <$>
                  sort_unique ((λ e : K * nat * nat, e.1.2) <$> size table)
                = (λ c, length (filter (λ r, bowler (delivery r) = Some b' ∧
                                             delivery_type r = c) table)) <$>
                  sort_unique ((λ e : K * nat * nat, e.1.2) <$> size table))
    as Hrow.
  { intros b'. apply list_fmap_ext. intros i c _. apply size_get. }
  split.
  - intros (b0 & [= -> ->] & [[b1 c] n] & -> & He). simpl. split; [|apply Hrow].
    apply (list_elem_of_fmap_2 fst) in He. apply elem_of_size_keys in He.
    naive_solver.
  - intros [(r & Hr & Hb) ->]. exists b. split; [by rewrite Hrow|].
    assert ((b, delivery_type r) ∈ (size table).*1) as Hk.
    { apply elem_of_size_keys. eauto. }
    apply list_elem_of_fmap in Hk as ([[b' c'] n] & [= <- <-] & He).
    by exists (b, delivery_type r, n).
Qed.

Lemma bowler_trends_columns_ascending table :
  ascending (columns (bowler_trends table)).
Proof. apply sort_unique_ascending. Qed.
End TrendsFacts.

(** Splitting a count by a column and adding the parts up. *)
Lemma total_add (f g : nat → nat) (cols : list nat) :
  foldr Nat.add 0 ((λ c, f c + g c) <$> cols) =
  foldr Nat.add 0 (f <$> cols) + foldr Nat.add 0 (g <$> cols).
Proof. induction cols as [|c cols IH]; csimpl; [done|]. rewrite IH. lia. Qed.

Lemma total_indicator (P : nat → Prop) `{∀ c, Decision (P c)} (cols : list nat) :
  foldr Nat.add 0 ((λ c, if decide (P c) then 1 else 0) <$> cols) =
  length (filter P cols).
Proof.
  induction cols as [|c cols IH]; csimpl; [done|].
  rewrite filter_cons, IH. by case_decide.
Qed.

Lemma filter_eq_NoDup (x : nat) (cols : list nat) :
  NoDup cols → x ∈ cols → length (filter (λ c, x = c) cols) = 1.
Proof.
  induction 1 as [|c cols Hc Hnd IH]; [by intros ?%elem_of_nil|].
  rewrite filter_cons. intros [->|Hx]%elem_of_cons.
  - rewrite decide_True by done. simpl. f_equal.
    destruct (filter _ cols) as [|y ys] eqn:Hf; [done|].
    assert (y ∈ filter (λ c0, c = c0) cols) as Hy by (rewrite Hf; left).
    apply list_elem_of_filter in Hy as [<- Hy]. done.
  - rewrite decide_False by (intros <-; done). auto.
Qed.

Lemma count_by_column {A} (P : A → Prop) `{∀ a, Decision (P a)}
    (col : A → nat) (l : list A) (cols : list nat) :
  NoDup cols → Forall (λ a, P a → col a ∈ cols) l →
  foldr Nat.add 0 ((λ c, length (filter (λ a, P a ∧ col a = c) l)) <$> cols)
  = length (filter P l).
Proof.
  intros Hnd. induction 1 as [|a l Ha Hl IH]; csimpl.
  - clear Hnd. induction cols as [|c cols IHc]; csimpl; [done|]. by rewrite IHc.
  - assert ((λ c, length (filter (λ a0, P a0 ∧ col a0 = c) (a :: l))) <$> cols
            = (λ c, (if decide (P a ∧ col a = c) then 1 else 0)
                    + length (filter (λ a0, P a0 ∧ col a0 = c) l)) <$> cols) as ->.
    { apply list_fmap_ext. intros i c _. rewrite filter_cons. by case_decide. }
    rewrite total_add, IH, total_indicator, filter_cons.
    destruct (decide (P a)) as [HP|HP]; simpl.
    + assert (length (filter (λ c, P a ∧ col a = c) cols) = 1) as ->; [|done].
      rewrite <-(filter_eq_NoDup (col a) cols) by auto.
      f_equal. apply list_filter_iff. naive_solver.
    + assert (length (filter (λ c, P a ∧ col a = c) cols) = 0) as ->; [|done].
      destruct (filter _ cols) as [|y ys] eqn:Hf; [done|].
      assert (y ∈ filter (λ c, P a ∧ col a = c) cols) as Hy by (rewrite Hf; left).
      apply list_elem_of_filter in Hy. naive_solver.
Qed.

Section TrendsTheorems.
Context `{Libraries}.

(** C3. [output_bowler_trends.csv] has, after [bowler], one
    column for each delivery-type label that occurs in the clustered
    table, in ascending order - these are the columns 0, 1, 2, 3 when
    all four labels occur.  The entry of bowler b under label k is the
    number of rows of the table with bowler b and label k (0 when there
    is none), every bowler of the table has a row, and the counts of a
    bowler add up to the number of the bowler's rows. *)
Theorem bowler_trends_counts (global : RandomState)
    (match_df : list match_info) (delivery_df : list (ball value)) (fr : frame) :
  analysis global match_df delivery_df = Ok fr →
  let t := (frame_tables fr).1.2 in
  columns t = sort_unique (delivery_type <$> values fr) ∧
  ((∀ k, k ∈ delivery_type <$> values fr ↔ k < 4) → columns t = [0; 1; 2; 3]) ∧
  (∀ b cs, (b, cs) ∈ counts t →
     ∃ v, b = Some v ∧
       cs = (λ k, length (filter (λ r, bowler (delivery r) = Some v ∧
                                       delivery_type r = k) (values fr)))
              <$> columns t ∧
       foldr Nat.add 0 cs =
         length (filter (λ r, bowler (delivery r) = Some v) (values fr)) ∧
       0 < foldr Nat.add 0 cs) ∧
  (∀ r, r ∈ values fr → ∃ cs, (bowler (delivery r), cs) ∈ counts t).
Proof.
  intros Hrun. pose proof (values_complete _ _ _ _ Hrun) as Hcomplete.
  apply analysis_Ok in Hrun as (s & labels & _ & _ & _ & _ & Hv & ->).
  rewrite Hv in *. set (table := zip_with Clustered (fillna s) labels) in *.
  unfold tables, export_trends; cbn [fst snd columns counts].
  assert (columns (bowler_trends table) = sort_unique (delivery_type <$> table))
    as Hcols.
  { apply ascending_ext; [apply sort_unique_ascending..|]. intros c.
    rewrite bowler_trends_columns, elem_of_sort_unique, list_elem_of_fmap.
    split; [naive_solver|]. intros (r & -> & Hr). exists r.
    split_and!; [done| |done].
    eapply Forall_forall in Hcomplete; [|exact Hr]. apply Hcomplete. }
  split_and!.
  - exact Hcols.
  - intros Hall. rewrite Hcols.
    apply ascending_ext; [apply sort_unique_ascending| |].
    + repeat (constructor; [|by repeat constructor]). constructor.
    + intros k. rewrite elem_of_sort_unique, Hall.
      rewrite !elem_of_cons, elem_of_nil. lia.
  - intros b cs (b0 & [= -> ->] & Hb0)%list_elem_of_fmap.
    destruct b0 as [v cs]. apply bowler_trends_index in Hb0 as [(r & Hr & Hb) ->].
    assert (foldr Nat.add 0
              ((λ k, length (filter (λ r, bowler (delivery r) = Some v ∧
                                          delivery_type r = k) table))
                 <$> columns (bowler_trends table))
            = length (filter (λ r, bowler (delivery r) = Some v) table)) as Hsum.
    { apply (count_by_column (λ r, bowler (delivery r) = Some v) delivery_type).
      - apply ascending_NoDup, sort_unique_ascending.
      - apply Forall_forall. intros r' Hr' _. rewrite Hcols.
        by apply elem_of_sort_unique, list_elem_of_fmap_2. }
    exists v. split_and!; [done..|].
    eapply Nat.lt_le_trans; [|apply Nat.eq_le_incl; symmetry; exact Hsum].
    destruct (filter _ table) as [|r' g] eqn:Hg; [|simpl; lia].
    assert (r ∈ filter (λ r, bowler (delivery r) = Some v) table) as Hin.
    { by apply list_elem_of_filter. }
    rewrite Hg in Hin. by apply elem_of_nil in Hin.
  - intros r Hr.
    assert (is_Some (bowler (delivery r))) as [v Hb].
    { eapply Forall_forall in Hcomplete; [|exact Hr]. apply Hcomplete. }
    eexists. rewrite Hb. apply list_elem_of_fmap.
    eexists (v, _). split; [done|]. apply bowler_trends_index. eauto.
Qed.

(** C6. With [KMeans(n_clusters=4)] labelling in [0, n_clusters), every
    [delivery_type] of the clustered table is one of 0, 1, 2, 3, and at
    most four distinct labels occur. *)
Theorem delivery_type_in_range (global : RandomState)
    (match_df : list match_info) (delivery_df : list (ball value)) (fr : frame) :
  (∀ k g X labels, fit_predict k g X = Ok labels → Forall (λ l, l < k) labels) →
  analysis global match_df delivery_df = Ok fr →
  Forall (λ r, delivery_type r ∈ [0; 1; 2; 3]) (rows fr) ∧
  Forall (λ r, delivery_type r ∈ [0; 1; 2; 3]) (values fr) ∧
  length (remove_dups (delivery_type <$> rows fr)) ≤ 4.
Proof.
  intros Hrange Hrun.
  apply analysis_Ok in Hrun as (s & labels & _ & Hlen & Hcl & Hlabels & Hv & _).
  apply cluster_Ok in Hcl as (X & labels' & _ & Hfit & Hlen' & Heq).
  apply (f_equal (fmap delivery_type)) in Heq.
  rewrite !assign_delivery_type in Heq
    by (unfold fillna; rewrite length_fmap; unfold fillna in Hlen'; rewrite ?length_fmap in Hlen'; done).
  subst labels'. apply Hrange in Hfit.
  assert (Forall (λ l, l ∈ [0; 1; 2; 3]) labels) as Hin.
  { eapply Forall_impl; [exact Hfit|]. intros l Hl. simpl in Hl.
    rewrite !elem_of_cons. lia. }
  split_and!.
  - rewrite <-Hlabels in Hin. by apply Forall_fmap in Hin.
  - assert (delivery_type <$> values fr = labels) as Hlv.
    { rewrite Hv. apply assign_delivery_type. unfold fillna. by rewrite length_fmap. }
    rewrite <-Hlv in Hin. by apply Forall_fmap in Hin.
  - rewrite Hlabels.
    change 4 with (length [0; 1; 2; 3]). apply submseteq_length.
    apply NoDup_submseteq; [apply NoDup_remove_dups|].
    intros l Hl. rewrite elem_of_remove_dups in Hl.
    rewrite Forall_forall in Hin. by apply Hin.
Qed.
End TrendsTheorems.

(** ** The heatmap's table *)

Section HeatmapTheorems.
Context {K : Type} `{CmpLaws K, EqDecision K}.

Lemma elem_of_top_batter_stats (stats : list (batter_stat K)) (st : batter_stat K) :
  st ∈ top_batter_stats stats ↔
  ∃ st0, st = clip_row st0 ∧ bs_batter st0 ∈ top_batters stats ∧ st0 ∈ stats.
Proof.
  unfold top_batter_stats. rewrite list_elem_of_fmap.
  by setoid_rewrite list_elem_of_filter.
Qed.

(** C8. After the clip no [avg_strike_rate] of the table the heatmap is
    drawn from exceeds 250: a value above 250 has become 250, and no
    entry of the pivoted matrix exceeds 250. *)
Theorem heatmap_strike_rates_clipped (stats : list (batter_stat K)) :
  (∀ st q, st ∈ top_batter_stats stats →
     avg_strike_rate st = Some q → (q ≤ Q2Qc 250)%Qc) ∧
  (∀ st0 q, st0 ∈ stats → bs_batter st0 ∈ top_batters stats →
     avg_strike_rate st0 = Some q → (Q2Qc 250 < q)%Qc →
     ∃ st, st ∈ top_batter_stats stats ∧ pivot_key st = pivot_key st0 ∧
       avg_strike_rate st = Some (Q2Qc 250)) ∧
  (∀ pv row q, pivot (top_batter_stats stats) = Ok pv →
     row ∈ pv_values pv → Some q ∈ row → (q ≤ Q2Qc 250)%Qc).
Proof.
  assert (∀ st q, st ∈ top_batter_stats stats →
            avg_strike_rate st = Some q → (q ≤ Q2Qc 250)%Qc) as Hle.
  { intros st q (st0 & -> & _)%elem_of_top_batter_stats. apply clip_le. }
  split_and!; [done| |].
  - intros st0 q Hst0 Htop Hq Hgt. exists (clip_row st0). split_and!; [|done|].
    + apply elem_of_top_batter_stats. eauto.
    + simpl. rewrite Hq. by apply clip_above.
  - intros pv row q. unfold pivot. case_decide; [|done]. intros [= <-]. simpl.
    intros (b & -> & _)%list_elem_of_fmap (c & Hq & _)%list_elem_of_fmap.
    destruct (get _ _) as [x|] eqn:Hget; simplify_eq/=.
    apply get_Some_elem_of, list_elem_of_fmap in Hget as (st & [= _ Hst] & Hin).
    apply (Hle st); [done|congruence].
Qed.

(** C10. The batter statistics have one row per (batter, delivery type)
    pair, so the table handed to [pivot] repeats no (index, column)
    pair and [pivot] returns a matrix. *)
Theorem pivot_never_duplicate (table : list (clustered K)) :
  NoDup (pivot_key <$> batter_stats table) ∧
  NoDup (pivot_key <$> top_batter_stats (batter_stats table)) ∧
  ∃ pv, pivot (top_batter_stats (batter_stats table)) = Ok pv.
Proof.
  assert (NoDup (pivot_key <$> top_batter_stats (batter_stats table))) as Hnd.
  { eapply sublist_NoDup; [apply batter_stats_NoDup|].
    apply top_batter_stats_keys. }
  split_and!; [apply batter_stats_NoDup|done|by apply pivot_Ok].
Qed.
End HeatmapTheorems.

(** ** The sample *)

Lemma Qc_of_Z_this (z : Z) : (this (Qc_of_Z z) == inject_Z z)%Q.
Proof. reflexivity. Qed.

(** Python's [round] returns an integer nearest to its argument. *)
Lemma round_nearest (q : Qc) :
  (inject_Z (round q) - (1 # 2) <= q)%Q ∧ (q <= inject_Z (round q) + (1 # 2))%Q.
Proof.
  unfold round. set (f := Qfloor q).
  pose proof (Qfloor_le q) as Hlo. pose proof (Qlt_floor q) as Hhi.
  fold f in Hlo, Hhi. rewrite inject_Z_plus in Hhi.
  change (inject_Z 1) with 1%Q in Hhi.
  assert (this (q - Qc_of_Z f)%Qc == q - inject_Z f)%Q as Hr.
  { unfold Qcminus, Qcplus, Qcopp, Q2Qc; simpl. rewrite !Qred_correct. reflexivity. }
  unfold cmp, Qc_cmp, Qccompare. rewrite Hr.
  change (this (Q2Qc (1 # 2))) with (1 # 2)%Q.
  destruct (Qcompare_spec (q - inject_Z f) (1 # 2)) as [Heq|Hlt|Hgt].
  - destruct (Z.even f); rewrite ?inject_Z_plus;
      change (inject_Z 1) with 1%Q; lra.
  - lra.
  - rewrite inject_Z_plus. change (inject_Z 1) with 1%Q. lra.
Qed.

Lemma round_fraction_le (n : nat) :
  Z.to_nat (round (Q2Qc (3 # 10) * Qc_of_nat n)%Qc) ≤ n.
Proof.
  pose proof (round_nearest (Q2Qc (3 # 10) * Qc_of_nat n)%Qc) as [Hhi _]. revert Hhi.
  assert (this (Q2Qc (3 # 10) * Qc_of_nat n)%Qc == (3 # 10) * inject_Z (Z.of_nat n))%Q
    as ->.
  { unfold Qcmult, Q2Qc; simpl. rewrite !Qred_correct. reflexivity. }
  set (z := round _). intros Hhi.
  destruct (decide (z ≤ Z.of_nat n)%Z) as [|Hgt]; [lia|]. exfalso.
  assert (Z.of_nat n + 1 ≤ z)%Z as Hz by lia.
  rewrite Zle_Qle, inject_Z_plus in Hz.
  change (inject_Z 1) with 1%Q in Hz.
  assert (0 <= inject_Z (Z.of_nat n))%Q as Hn.
  { change 0%Q with (inject_Z 0). rewrite <-Zle_Qle. lia. }
  lra.
Qed.

Section SampleTheorems.
Context `{Libraries}.

Lemma elem_of_merge (r : ball value) (delivery_df : list (ball value))
    (match_df : list match_info) :
  r ∈ merge delivery_df match_df ↔
  ∃ d m, d ∈ delivery_df ∧ m ∈ match_df ∧ m_match_id m = match_id d ∧
         r = join_row d m.
Proof.
  unfold merge. rewrite list_elem_of_bind.
  setoid_rewrite list_elem_of_fmap. setoid_rewrite list_elem_of_filter.
  naive_solver.
Qed.

Lemma round_fraction_nonneg (n : nat) :
  (0 ≤ round (Q2Qc (3 # 10) * Qc_of_nat n)%Qc)%Z.
Proof.
  pose proof (round_nearest (Q2Qc (3 # 10) * Qc_of_nat n)%Qc) as [_ Hhi]. revert Hhi.
  assert (this (Q2Qc (3 # 10) * Qc_of_nat n)%Qc == (3 # 10) * inject_Z (Z.of_nat n))%Q
    as ->.
  { unfold Qcmult, Q2Qc; simpl. rewrite !Qred_correct. reflexivity. }
  set (z := round _). intros Hhi.
  destruct (decide (0 ≤ z)%Z) as [|Hneg]; [done|]. exfalso.
  assert (z + 1 ≤ 0)%Z as Hz by lia.
  rewrite Zle_Qle, inject_Z_plus in Hz.
  change (inject_Z 1) with 1%Q in Hz. change (inject_Z 0) with 0%Q in Hz.
  assert (0 <= inject_Z (Z.of_nat n))%Q as Hn.
  { change 0%Q with (inject_Z 0). rewrite <-Zle_Qle. lia. }
  lra.
Qed.

(** C4. The sampled table has [round(0.3 * n)] rows, n the number of
    rows of the inner join on [match_id], and they are the rows of the
    join at pairwise distinct positions. *)
Theorem sample_thirty_percent (global : RandomState)
    (match_df : list match_info) (delivery_df : list (ball value)) :
  (∀ g n, permutation g n ≡ₚ seq 0 n) →
  let merged := merge delivery_df match_df in
  (∀ r, r ∈ merged ↔
     ∃ d m, d ∈ delivery_df ∧ m ∈ match_df ∧ m_match_id m = match_id d ∧
            r = join_row d m) ∧
  ∃ df locs,
    sample global (Q2Qc (3 # 10)) (Some 42%Z) merged = Ok df ∧
    Z.of_nat (length df) = round (Q2Qc (3 # 10) * Qc_of_nat (length merged))%Qc ∧
    (inject_Z (Z.of_nat (length df)) - (1 # 2)
       <= (3 # 10) * inject_Z (Z.of_nat (length merged)))%Q ∧
    ((3 # 10) * inject_Z (Z.of_nat (length merged))
       <= inject_Z (Z.of_nat (length df)) + (1 # 2))%Q ∧
    NoDup locs ∧
    Forall2 (λ i r, merged !! i = Some r) locs df.
Proof.
  intros Hperm merged. split; [intros r; apply elem_of_merge|].
  set (n := length merged).
  set (size := Z.to_nat (round (Q2Qc (3 # 10) * Qc_of_nat n)%Qc)).
  set (locs := take size (permutation (seeded 42%Z) n)).
  assert (size ≤ n) as Hsize by apply round_fraction_le.
  assert (length locs = size) as Hlocs.
  { unfold locs. rewrite length_take_le; [done|].
    by rewrite (Permutation_length (Hperm _ _)), length_seq. }
  assert (NoDup locs) as Hnd.
  { eapply sublist_NoDup; [|apply sublist_take].
    rewrite (Hperm _ _). apply NoDup_seq. }
  assert (is_Some (mapM (λ i, merged !! i) locs)) as [df Hdf].
  { apply mapM_is_Some, Forall_forall. intros i Hi%subseteq_take. simpl.
    rewrite (Hperm _ _) in Hi. apply elem_of_seq in Hi.
    apply lookup_lt_is_Some. fold n. lia. }
  exists df, locs.
  assert (length df = size) as Hlen.
  { apply mapM_Some, Forall2_length in Hdf. congruence. }
  assert (Z.of_nat (length df) = round (Q2Qc (3 # 10) * Qc_of_nat n)%Qc) as Hround.
  { rewrite Hlen. unfold size. rewrite Z2Nat.id; [done|].
    apply round_fraction_nonneg. }
  pose proof (round_nearest (Q2Qc (3 # 10) * Qc_of_nat n)%Qc) as [Hlo Hhi].
  rewrite <-Hround in Hlo, Hhi.
  assert (this (Q2Qc (3 # 10) * Qc_of_nat n)%Qc == (3 # 10) * inject_Z (Z.of_nat n))%Q
    as Hq.
  { unfold Qcmult, Q2Qc; simpl. rewrite !Qred_correct. reflexivity. }
  rewrite Hq in Hlo, Hhi.
  split_and!; [|done..| by apply mapM_Some].
  unfold sample, choice. rewrite check_random_state_42. fold n. fold size. simpl.
  rewrite decide_False by lia. simpl. unfold take_rows.
  fold locs. by rewrite Hdf.
Qed.
End SampleTheorems.

(** ** Runs of the script *)

Section RunTheorems.
Context `{Libraries}.

(** C9. Leaving out the two [astype('category')] lines changes none of
    the three written tables, and no failure either. *)
Theorem category_recoding_invisible (global : RandomState)
    (match_df : list match_info) (delivery_df : list (ball value)) :
  frame_tables <$> analysis global match_df delivery_df =
  tables Some Some <$> analysis_without_category global match_df delivery_df.
Proof.
  unfold analysis, analysis_without_category.
  destruct (prepare global match_df delivery_df) as [df|e]; simpl; [|done].
  rewrite cluster_recode.
  destruct (cluster global df) as [table|e] eqn:Hcl; simpl; [|done].
  apply cluster_Ok in Hcl as (X & labels & _ & _ & _ & ->).
  unfold frame_tables; simpl. by rewrite <-zip_with_recode, tables_recode.
Qed.

(** The seeded calls never consult the process-wide generator. *)
Lemma analysis_seeded (g1 g2 : RandomState)
    (match_df : list match_info) (delivery_df : list (ball value)) :
  analysis g1 match_df delivery_df = analysis g2 match_df delivery_df.
Proof. reflexivity. Qed.

Lemma heatmap_step_run (f : frame) (stats : list (batter_stat nat)) (w : World) :
  heatmap_step f stats w =
  match heatmap_image f stats with
  | Ok image =>
      (MkWorld (<["batter_strike_rate_heatmap_top20.png" := Png image]> (files w))
               (stdout w), Ok ())
  | Raise e => (w, Raise e)
  end.
Proof.
  unfold heatmap_step, heatmap_image.
  destruct (pivot _) as [pv|e]; [|done].
  unfold mbind at 1, M_bind, lift at 1. simpl.
  unfold mbind, M_bind, lift. by destruct (plot_heatmap _).
Qed.

Lemma bar_step_run (f : frame) (t : trends nat) (w : World) :
  bar_step f t w =
  match bar_image f t with
  | Ok image =>
      (MkWorld (<["bowler_delivery_distribution_top20.png" := Png image]> (files w))
               (stdout w), Ok ())
  | Raise e => (w, Raise e)
  end.
Proof.
  unfold bar_step, bar_image.
  destruct (with_total _) as [totals|e]; [|done].
  unfold mbind at 1, M_bind, lift at 1. simpl.
  unfold mbind, M_bind, lift. by destruct (plot_bars _).
Qed.

Lemma try_heatmap_run (f : frame) (stats : list (batter_stat nat)) (w : World) :
  try_except (heatmap_step f stats) heatmap_failed w =
  match heatmap_image f stats with
  | Ok image =>
      (MkWorld (<["batter_strike_rate_heatmap_top20.png" := Png image]> (files w))
               (stdout w), Ok ())
  | Raise e =>
      (MkWorld (files w)
         (stdout w ++ ["⚠️ Strike rate heatmap generation failed: " +:+ str e]),
       Ok ())
  end.
Proof.
  unfold try_except. rewrite heatmap_step_run.
  by destruct (heatmap_image f stats).
Qed.

Lemma try_bar_run (f : frame) (t : trends nat) (w : World) :
  try_except (bar_step f t) bar_failed w =
  match bar_image f t with
  | Ok image =>
      (MkWorld (<["bowler_delivery_distribution_top20.png" := Png image]> (files w))
               (stdout w), Ok ())
  | Raise e =>
      (MkWorld (files w)
         (stdout w ++ ["⚠️ Horizontal bar chart generation failed: " +:+ str e]),
       Ok ())
  end.
Proof.
  unfold try_except. rewrite bar_step_run.
  by destruct (bar_image f t).
Qed.

Lemma visualize_run (f : frame) (stats : list (batter_stat nat)) (t : trends nat)
    (w : World) :
  visualize f stats t w =
  try_except (bar_step f t) bar_failed
    (try_except (heatmap_step f stats) heatmap_failed w).1.
Proof.
  unfold visualize. unfold mbind at 1, M_bind.
  rewrite try_heatmap_run. by destruct (heatmap_image f stats).
Qed.

Lemma try_heatmap_files (f : frame) (stats : list (batter_stat nat)) (w : World)
    (path : string) :
  path ≠ "batter_strike_rate_heatmap_top20.png" →
  files (try_except (heatmap_step f stats) heatmap_failed w).1 !! path
  = files w !! path.
Proof.
  intros Hp. rewrite try_heatmap_run. destruct (heatmap_image f stats); simpl; [|done].
  by rewrite lookup_insert_ne.
Qed.

Lemma try_bar_files (f : frame) (t : trends nat) (w : World) (path : string) :
  path ≠ "bowler_delivery_distribution_top20.png" →
  files (try_except (bar_step f t) bar_failed w).1 !! path = files w !! path.
Proof.
  intros Hp. rewrite try_bar_run. destruct (bar_image f t); simpl; [|done].
  by rewrite lookup_insert_ne.
Qed.

Lemma try_bar_stdout (f : frame) (t : trends nat) (w : World) :
  stdout (try_except (bar_step f t) bar_failed w).1 =
  stdout w ++ match bar_image f t with
              | Ok _ => []
              | Raise e => ["⚠️ Horizontal bar chart generation failed: " +:+ str e]
              end.
Proof.
  rewrite try_bar_run. destruct (bar_image f t); simpl; [|done].
  by rewrite app_nil_r.
Qed.

Lemma try_heatmap_stdout (f : frame) (stats : list (batter_stat nat)) (w : World) :
  stdout (try_except (heatmap_step f stats) heatmap_failed w).1 =
  stdout w ++ match heatmap_image f stats with
              | Ok _ => []
              | Raise e => ["⚠️ Strike rate heatmap generation failed: " +:+ str e]
              end.
Proof.
  rewrite try_heatmap_run. destruct (heatmap_image f stats); simpl; [|done].
  by rewrite app_nil_r.
Qed.



Lemma csv_output_not_png (path : string) :
  path ∈ csv_outputs →
  path ≠ "batter_strike_rate_heatmap_top20.png" ∧
  path ≠ "bowler_delivery_distribution_top20.png".
Proof.
  unfold csv_outputs. rewrite !elem_of_cons, elem_of_nil.
  intros [->|[->|[->|[]]]]; done.
Qed.


Lemma visualize_files (f : frame) (stats : list (batter_stat nat)) (t : trends nat)
    (w : World) (path : string) :
  path ∈ csv_outputs → files (visualize f stats t w).1 !! path = files w !! path.
Proof.
  intros [Hp1 Hp2]%csv_output_not_png. rewrite visualize_run.
  rewrite try_bar_files by done. by rewrite try_heatmap_files.
Qed.

Lemma visualize_Ok (f : frame) (stats : list (batter_stat nat)) (t : trends nat)
    (w : World) :
  (visualize f stats t w).2 = Ok ().
Proof. rewrite visualize_run, try_bar_run. by destruct (bar_image f t). Qed.

Lemma export_files (out : outputs) (w : World) :
  files (export out w).1 =
  <["output_bowler_economy.csv" := EconomyCsv out.2]>
    (<["output_bowler_trends.csv" := TrendsCsv out.1.2]>
       (<["output_batter_patterns.csv" := BatterCsv out.1.1]> (files w))).
Proof. reflexivity. Qed.

Lemma export_lookup (out : outputs) (w1 w2 : World) (path : string) :
  path ∈ csv_outputs →
  is_Some (files (export out w1).1 !! path) ∧
  files (export out w1).1 !! path = files (export out w2).1 !! path.
Proof.
  rewrite !export_files. unfold csv_outputs. rewrite !elem_of_cons, elem_of_nil.
  intros [->|[->|[->|[]]]]; by simplify_map_eq.
Qed.

Lemma main_run (global : RandomState) (w : World) :
  main global w =
  match (read_match_info "cleaned_match_info.csv" w).2 with
  | Raise e => (w, Raise e)
  | Ok match_df =>
      match (read_deliveries "cleaned_deliveries.csv" w).2 with
      | Raise e => (w, Raise e)
      | Ok delivery_df =>
          match analysis global match_df delivery_df with
          | Raise e => (w, Raise e)
          | Ok f =>
              visualize f (batter_stats (rows f)) (bowler_trends (rows f))
                        (export (frame_tables f) w).1
          end
      end
  end.
Proof.
  unfold main. unfold mbind at 1, M_bind. unfold read_match_info at 1 2.
  destruct (files w !! "cleaned_match_info.csv") as [[]|]; simpl; try done.
  unfold mbind at 1, M_bind. unfold read_deliveries at 1 2.
  destruct (files w !! "cleaned_deliveries.csv") as [[]|]; simpl; done.
Qed.

Lemma read_match_info_files (path : string) (w1 w2 : World) :
  files w1 !! path = files w2 !! path →
  (read_match_info path w1).2 = (read_match_info path w2).2.
Proof.
  unfold read_match_info. intros ->. by destruct (files w2 !! path) as [[]|].
Qed.

Lemma read_deliveries_files (path : string) (w1 w2 : World) :
  files w1 !! path = files w2 !! path →
  (read_deliveries path w1).2 = (read_deliveries path w2).2.
Proof.
  unfold read_deliveries. intros ->. by destruct (files w2 !! path) as [[]|].
Qed.

(** The first chart step can only fail while drawing or saving. *)
Lemma heatmap_failure_is_plot_failure (f : frame) (e : Exception) :
  heatmap_image f (batter_stats (rows f)) = Raise e →
  ∃ pv, pivot (top_batter_stats (batter_stats (rows f))) = Ok pv ∧
        plot_heatmap (export_pivot (decode (batters f)) pv) = Raise e.
Proof.
  unfold heatmap_image.
  destruct (pivot_Ok (top_batter_stats (batter_stats (rows f)))) as [pv Hpv].
  { eapply sublist_NoDup; [apply batter_stats_NoDup|].
    apply top_batter_stats_keys. }
  rewrite Hpv. simpl. eauto.
Qed.

(** C1. Two runs on the same two input files end the same way, and when
    they complete, each of the three CSV files has the same contents
    after both: the sample and the clustering are drawn from generators
    seeded with 42, never from the process-wide generator, which is the
    only thing that differs between the runs. *)
Theorem rerun_same_csv (g1 g2 : RandomState) (w1 w2 : World) :
  files w1 !! "cleaned_match_info.csv" = files w2 !! "cleaned_match_info.csv" →
  files w1 !! "cleaned_deliveries.csv" = files w2 !! "cleaned_deliveries.csv" →
  (main g1 w1).2 = (main g2 w2).2 ∧
  ((main g1 w1).2 = Ok () →
   ∀ path, path ∈ csv_outputs →
     is_Some (files (main g1 w1).1 !! path) ∧
     files (main g1 w1).1 !! path = files (main g2 w2).1 !! path).
Proof.
  intros Hm Hd. rewrite !main_run.
  rewrite (read_match_info_files _ w1 w2 Hm), (read_deliveries_files _ w1 w2 Hd).
  destruct (read_match_info _ w2).2 as [match_df|e]; [|done].
  destruct (read_deliveries _ w2).2 as [delivery_df|e]; [|done].
  rewrite (analysis_seeded g1 g2).
  destruct (analysis g2 match_df delivery_df) as [f|e]; [|done].
  split; [by rewrite !visualize_Ok|].
  intros _ path Hpath. rewrite !visualize_files by done.
  by apply export_lookup.
Qed.
End RunTheorems.

(** ** The small back-end meets the contracts of the libraries *)

Lemma argmin_from_lt (best : nat) (least : Qc) (i : nat) (ds : list Qc) :
  best < i → argmin_from best least i ds < i + length ds.
Proof.
  revert best least i. induction ds as [|d ds IH]; intros best least i Hb; simpl.
  - lia.
  - case_decide.
    + specialize (IH i d (S i)). lia.
    + specialize (IH best least (S i)). lia.
Qed.

Lemma nearest_lt (centres : list (list Qc)) (x : list Qc) :
  centres ≠ [] → nearest centres x < length centres.
Proof.
  intros Hne. destruct centres as [|c centres]; [done|].
  unfold nearest. csimpl.
  pose proof (argmin_from_lt 0 (distance2 x c) 1 (distance2 x <$> centres)) as Hlt.
  rewrite length_fmap in Hlt. lia.
Qed.

Lemma demo_fit_predict_range (k : nat) (g : Z) (X : list (list Qc))
    (labels : list nat) :
  demo_fit_predict k g X = Ok labels → Forall (λ l, l < k) labels.
Proof.
  unfold demo_fit_predict. case_decide as Hk; [done|]. intros [= <-].
  apply Forall_fmap, Forall_forall. intros x _. simpl.
  assert (length (take k X) = k) as Hlen by (rewrite length_take; lia).
  rewrite <-Hlen at 2. apply nearest_lt.
  intros Hnil. rewrite Hnil in Hlen. simpl in Hlen. lia.
Qed.

Lemma demo_permutation_spec (g : Z) (n : nat) : reverse (seq 0 n) ≡ₚ seq 0 n.
Proof. apply reverse_Permutation. Qed.

(** ** The theorems on concrete runs *)

Lemma demo_analysis :
  analysis (H:=demo) 0%Z demo_matches demo_deliveries = Ok demo_frame.
Proof. vm_compute. reflexivity. Defined.

Lemma demo_sampling :
  sample (H:=demo) 0%Z (Q2Qc (3 # 10)) (Some 42%Z)
         (merge demo_deliveries demo_matches) = Ok demo_sample.
Proof. vm_compute. reflexivity. Defined.

(** Without the seed a sample does depend on the process-wide
    generator; with it, it does not. *)
Example unseeded_sample_differs :
  sample (H:=rotating) 1%Z (Q2Qc (3 # 10)) None demo_deliveries
    ≠ sample (H:=rotating) 2%Z (Q2Qc (3 # 10)) None demo_deliveries ∧
  sample (H:=rotating) 1%Z (Q2Qc (3 # 10)) (Some 42%Z) demo_deliveries
    = sample (H:=rotating) 2%Z (Q2Qc (3 # 10)) (Some 42%Z) demo_deliveries.
Proof.
  split; [|reflexivity].
  intros Heq. apply (f_equal (λ r, match r with
                                   | Ok df => ball_number <$> head df
                                   | Raise _ => None
                                   end)) in Heq.
  vm_compute in Heq. discriminate Heq.
Qed.

Lemma rerun_same_csv_witness :
  files demo_world !! "cleaned_match_info.csv"
    = files rerun_world !! "cleaned_match_info.csv" ∧
  files demo_world !! "cleaned_deliveries.csv"
    = files rerun_world !! "cleaned_deliveries.csv" ∧
  (main (H:=demo) 0%Z demo_world).2 = (main (H:=demo) 7%Z rerun_world).2 ∧
  files (main (H:=demo) 0%Z demo_world).1 !! "output_bowler_trends.csv"
    = files (main (H:=demo) 7%Z rerun_world).1 !! "output_bowler_trends.csv".
Proof.
  assert (files demo_world !! "cleaned_match_info.csv"
          = files rerun_world !! "cleaned_match_info.csv") as Hm.
  { vm_compute. reflexivity. }
  assert (files demo_world !! "cleaned_deliveries.csv"
          = files rerun_world !! "cleaned_deliveries.csv") as Hd.
  { vm_compute. reflexivity. }
  destruct (rerun_same_csv (H:=demo) 0%Z 7%Z demo_world rerun_world Hm Hd)
    as [Hend Hcsv].
  split; [exact Hm|]. split; [exact Hd|]. split; [exact Hend|].
  apply Hcsv.
  - vm_compute. reflexivity.
  - unfold csv_outputs. apply list_elem_of_further, list_elem_of_here.
Defined.

Lemma batter_patterns_rows_witness :
  analysis (H:=demo) 0%Z demo_matches demo_deliveries = Ok demo_frame ∧
  ∀ r, r ∈ values demo_frame →
    ∃ st, st ∈ (frame_tables demo_frame).1.1 ∧
      bs_batter st = batter (delivery r) ∧
      bs_delivery_type st = delivery_type r.
Proof.
  split; [exact demo_analysis|].
  exact (proj2 (batter_patterns_rows (H:=demo) 0%Z demo_matches demo_deliveries
                  demo_frame demo_analysis)).
Defined.

Lemma bowler_trends_counts_witness :
  analysis (H:=demo) 0%Z demo_matches demo_deliveries = Ok demo_frame ∧
  columns (frame_tables demo_frame).1.2
    = sort_unique (delivery_type <$> values demo_frame).
Proof.
  split; [exact demo_analysis|].
  exact (proj1 (bowler_trends_counts (H:=demo) 0%Z demo_matches demo_deliveries
                  demo_frame demo_analysis)).
Defined.

Lemma sample_thirty_percent_witness :
  (∀ g n, permutation (Libraries:=demo) g n ≡ₚ seq 0 n) ∧
  ∃ df locs,
    sample (H:=demo) 0%Z (Q2Qc (3 # 10)) (Some 42%Z)
           (merge demo_deliveries demo_matches) = Ok df ∧
    Z.of_nat (length df)
      = round (Q2Qc (3 # 10)
               * Qc_of_nat (length (merge demo_deliveries demo_matches)))%Qc ∧
    NoDup locs ∧
    Forall2 (λ i r, merge demo_deliveries demo_matches !! i = Some r) locs df.
Proof.
  split; [exact demo_permutation_spec|].
  destruct (sample_thirty_percent (H:=demo) 0%Z demo_matches demo_deliveries
              demo_permutation_spec)
    as [_ (df & locs & Hs & Hlen & _ & _ & Hnd & Hrows)].
  exists df, locs. split; [exact Hs|]. split; [exact Hlen|].
  split; [exact Hnd|exact Hrows].
Defined.

Lemma delivery_type_in_range_witness :
  (∀ k g X labels, fit_predict (Libraries:=demo) k g X = Ok labels →
     Forall (λ l, l < k) labels) ∧
  analysis (H:=demo) 0%Z demo_matches demo_deliveries = Ok demo_frame ∧
  Forall (λ r, delivery_type r ∈ [0; 1; 2; 3]) (rows demo_frame).
Proof.
  split; [exact demo_fit_predict_range|].
  split; [exact demo_analysis|].
  exact (proj1 (delivery_type_in_range (H:=demo) 0%Z demo_matches demo_deliveries
                  demo_frame demo_fit_predict_range demo_analysis)).
Defined.

Lemma fillna_zero_everywhere_witness :
  analysis (H:=demo) 0%Z demo_matches demo_deliveries = Ok demo_frame ∧
  sample (H:=demo) 0%Z (Q2Qc (3 # 10)) (Some 42%Z)
         (merge demo_deliveries demo_matches) = Ok demo_sample ∧
  Forall2 (λ r d, cells (delivery r)
                  = (λ c, Some (default (VNum 0%Qc) c)) <$> cells d)
          (values demo_frame) demo_sample ∧
  length (values demo_frame) = length demo_sample.
Proof.
  split; [exact demo_analysis|]. split; [exact demo_sampling|].
  destruct (fillna_zero_everywhere (H:=demo) 0%Z demo_matches
              demo_deliveries demo_frame demo_sample
              demo_analysis demo_sampling) as (Hcells & _ & _ & Hlen & _).
  split; [exact Hcells|exact Hlen].
Defined.

(** C3 with the four columns fixed does not hold: when the four
    sampled deliveries agree in every feature the clustering gives all
    of them label 0, and the table has the single count column 0. *)
Lemma bowler_trends_columns_counterexample :
  (∀ k g X labels, fit_predict (Libraries:=demo) k g X = Ok labels →
     Forall (λ l, l < k) labels) ∧
  analysis (H:=demo) 0%Z demo_matches flat_deliveries = Ok flat_frame ∧
  delivery_type <$> rows flat_frame = [0; 0; 0; 0] ∧
  counts (frame_tables flat_frame).1.2 = [(Some (VStr "Starc"), [4])] ∧
  columns (frame_tables flat_frame).1.2 = [0] ∧
  columns (frame_tables flat_frame).1.2 ≠ [0; 1; 2; 3].
Proof.
  split; [exact demo_fit_predict_range|].
  split; [vm_compute; reflexivity|].
  split; [vm_compute; reflexivity|].
  split; [vm_compute; reflexivity|].
  assert (columns (frame_tables flat_frame).1.2 = [0]) as Hcols.
  { vm_compute. reflexivity. }
  split; [exact Hcols|]. rewrite Hcols. discriminate.
Qed.

Lemma heatmap_strike_rates_clipped_witness :
  demo_clipped ∈ top_batter_stats demo_stats ∧
  avg_strike_rate demo_clipped = Some (Q2Qc 250) ∧
  (Q2Qc 250 ≤ Q2Qc 250)%Qc.
Proof.
  assert (demo_clipped ∈ top_batter_stats demo_stats) as Hin.
  { apply (list_elem_of_lookup_2 _ 5). vm_compute. reflexivity. }
  assert (avg_strike_rate demo_clipped = Some (Q2Qc 250)) as Hrate.
  { vm_compute. reflexivity. }
  split; [exact Hin|]. split; [exact Hrate|].
  exact (proj1 (heatmap_strike_rates_clipped demo_stats)
               demo_clipped (Q2Qc 250) Hin Hrate).
Defined.


Lemma pivot_never_duplicate_witness :
  CmpLaws nat ∧
  ∃ pv, pivot (top_batter_stats (batter_stats (rows demo_frame))) = Ok pv.
Proof.
  split; [exact nat_cmp_laws|].
  exact (proj2 (proj2 (pivot_never_duplicate (H0:=nat_cmp_laws) (rows demo_frame)))).
Defined.

(** * Further properties of the script *)

(** ** [nlargest] and the batters of the heatmap *)

Section Largest.
Context {K : Type}.
Implicit Types (x y : K * Qc) (s : list (K * Qc)).

Lemma insert_desc_Permutation x s : insert_desc x s ≡ₚ x :: s.
Proof.
  induction s as [|y s IH]; simpl; [done|].
  case_decide; [|done]. rewrite IH. apply Permutation_swap.
Qed.

Lemma sort_desc_Permutation s : foldr insert_desc [] s ≡ₚ s.
Proof.
  induction s as [|x s IH]; simpl; [done|].
  by rewrite insert_desc_Permutation, IH.
Qed.

Lemma insert_desc_descending x s : descending s → descending (insert_desc x s).
Proof.
  unfold descending. induction 1 as [|y s Hs IH Hy]; simpl.
  - repeat constructor.
  - case_decide as Hxy.
    + constructor; [done|]. rewrite insert_desc_Permutation.
      constructor; [by apply Qclt_le_weak|done].
    + constructor; [by constructor|].
      apply Qcnot_lt_le in Hxy. constructor; [done|].
      eapply Forall_impl; [exact Hy|]. intros z Hz. simpl in *.
      by eapply Qcle_trans.
Qed.

Lemma sort_desc_descending s : descending (foldr insert_desc [] s).
Proof.
  induction s as [|x s IH]; simpl; [constructor|].
  by apply insert_desc_descending.
Qed.

Lemma nlargest_split (n : nat) s :
  length (nlargest n s) = n `min` length s ∧
  descending (nlargest n s) ∧
  ∃ rest, s ≡ₚ nlargest n s ++ rest ∧
    ∀ x y, x ∈ nlargest n s → y ∈ rest → (y.2 ≤ x.2)%Qc.
Proof.
  unfold nlargest. set (sorted := foldr insert_desc [] s).
  pose proof (sort_desc_descending s) as Hsorted. fold sorted in Hsorted.
  rewrite <-(take_drop n sorted) in Hsorted.
  split_and!.
  - rewrite length_take. unfold sorted.
    by rewrite (Permutation_length (sort_desc_Permutation s)).
  - by apply StronglySorted_app_1_l in Hsorted.
  - exists (drop n sorted). split.
    + rewrite take_drop. unfold sorted. by rewrite sort_desc_Permutation.
    + intros x y Hx Hy.
      by apply (StronglySorted_app_1_elem_of _ _ _ x y) in Hsorted.
Qed.
(** X1. [nlargest(n)] returns [min(n, len)] entries of the series in
    descending order of value, and no entry it leaves out has a larger
    value than an entry it returns. *)
Theorem nlargest_largest (n : nat) s :
  length (nlargest n s) = n `min` length s ∧
  descending (nlargest n s) ∧
  ∃ rest, s ≡ₚ nlargest n s ++ rest ∧
    ∀ x y, x ∈ nlargest n s → y ∈ rest → (y.2 ≤ x.2)%Qc.
Proof. apply nlargest_split. Qed.
End Largest.

Lemma list_filter_Forall {A} (P : A → Prop) `{∀ a, Decision (P a)} (l : list A) :
  Forall P l → filter P l = l.
Proof.
  induction 1 as [|a l Ha Hl IH]; [done|].
  by rewrite filter_cons, decide_True, IH.
Qed.

Section TopBatters.
Context {K : Type} `{CmpLaws K, EqDecision K}.
Implicit Types (stats : list (batter_stat K)) (b : K).

Lemma runs_by_batter_keys stats :
  (runs_by_batter stats).*1 = sort_unique (bs_batter <$> stats).
Proof.
  unfold runs_by_batter, sort_unique. rewrite <-list_fmap_compose.
  change (fst ∘ _) with (@fst K (list (batter_stat K))).
  by rewrite groupby_keys, list_fmap_compose.
Qed.

Lemma elem_of_runs_by_batter stats b (q : Qc) :
  (b, q) ∈ runs_by_batter stats ↔
  (∃ st, st ∈ stats ∧ bs_batter st = b) ∧ q = batter_total stats b.
Proof.
  unfold runs_by_batter, batter_total. rewrite list_elem_of_fmap.
  assert (∀ b', filter (λ st, (Some ∘ bs_batter) st = Some b') stats
                = filter (λ st, bs_batter st = b') stats) as Hfilter.
  { intros b'. apply list_filter_iff. intros st. simpl. naive_solver. }
  split.
  - intros ([b' g] & [= <- ->] & [-> Hne]%elem_of_groupby). simpl.
    rewrite Hfilter in *. split; [|done].
    destruct (filter _ stats) as [|st g] eqn:Hg; [done|].
    assert (st ∈ filter (λ st, bs_batter st = b) stats) as Hst by (rewrite Hg; left).
    apply list_elem_of_filter in Hst. naive_solver.
  - intros [(st & Hst & Hb) ->].
    exists (b, filter (λ st, bs_batter st = b) stats). split; [done|].
    apply elem_of_groupby. rewrite Hfilter. split; [done|].
    intros Hnil. assert (st ∈ filter (λ st, bs_batter st = b) stats) as Hin.
    { by apply list_elem_of_filter. }
    rewrite Hnil in Hin. by apply elem_of_nil in Hin.
Qed.

Lemma top_batters_full stats :
  length (sort_unique (bs_batter <$> stats)) ≤ 20 →
  top_batters stats ≡ₚ sort_unique (bs_batter <$> stats).
Proof.
  intros Hlen. unfold top_batters, nlargest.
  rewrite <-runs_by_batter_keys in *. rewrite length_fmap in Hlen.
  rewrite take_ge.
  - by rewrite sort_desc_Permutation.
  - by rewrite (Permutation_length (sort_desc_Permutation _)).
Qed.

(** X2. The heatmap keeps at most 20 batters, each once and each a
    batter of the statistics; a batter left out has no more total runs
    than a batter kept; and with at most 20 batters every row of the
    statistics is kept. *)
Theorem top_batters_highest_totals stats :
  length (top_batters stats) ≤ 20 ∧
  NoDup (top_batters stats) ∧
  (∀ b, b ∈ top_batters stats → ∃ st, st ∈ stats ∧ bs_batter st = b) ∧
  (∀ b b' st', b ∈ top_batters stats → st' ∈ stats → bs_batter st' = b' →
     b' ∉ top_batters stats →
     (batter_total stats b' ≤ batter_total stats b)%Qc) ∧
  (length (sort_unique (bs_batter <$> stats)) ≤ 20 →
     top_batter_stats stats = clip_row <$> stats).
Proof.
  destruct (nlargest_split 20 (runs_by_batter stats))
    as (Hlen & _ & rest & Hperm & Hle).
  assert (NoDup ((nlargest 20 (runs_by_batter stats)).*1 ++ rest.*1)) as Hnd.
  { rewrite <-fmap_app, <-Hperm, runs_by_batter_keys.
    apply ascending_NoDup, sort_unique_ascending. }
  assert (∀ b, b ∈ top_batters stats →
            (b, batter_total stats b) ∈ nlargest 20 (runs_by_batter stats)) as Htop.
  { intros b ([b' q] & -> & Hin)%list_elem_of_fmap. simpl.
    assert ((b', q) ∈ runs_by_batter stats) as Hq.
    { rewrite Hperm. apply elem_of_app. by left. }
    apply elem_of_runs_by_batter in Hq as [_ ->]. done. }
  split_and!.
  - unfold top_batters. rewrite length_fmap, Hlen. lia.
  - by apply NoDup_app in Hnd as [? _].
  - intros b Hb%Htop.
    assert ((b, batter_total stats b) ∈ runs_by_batter stats) as Hq.
    { rewrite Hperm. apply elem_of_app. by left. }
    by apply elem_of_runs_by_batter in Hq as [? _].
  - intros b b' st' Hb Hst' Hb' Hout.
    assert ((b', batter_total stats b') ∈ runs_by_batter stats) as Hq.
    { apply elem_of_runs_by_batter. eauto. }
    rewrite Hperm in Hq. apply elem_of_app in Hq as [Hq|Hq].
    + destruct Hout. unfold top_batters.
      by apply (list_elem_of_fmap_2 fst) in Hq.
    + apply (Hle (b, batter_total stats b) (b', batter_total stats b'));
        [by apply Htop|done].
  - intros Hfew. unfold top_batter_stats. f_equal.
    apply list_filter_Forall, Forall_forall. intros st Hst.
    rewrite (top_batters_full stats Hfew).
    by apply elem_of_sort_unique, list_elem_of_fmap_2.
Qed.
End TopBatters.

(** ** [pivot] and the heatmap's matrix *)

Lemma get_None `{CmpLaws K} {A} (k : K) (s : list (K * A)) : k ∉ s.*1 → get k s = None.
Proof.
  induction s as [|[k' a] s IH]; csimpl; [done|].
  intros Hk. apply not_elem_of_cons in Hk as [Hne Hk].
  destruct (cmp k k') eqn:Hc; [|auto..]. by apply cmp_eq in Hc.
Qed.

Lemma get_NoDup `{CmpLaws K} {A} (k : K) (a : A) (s : list (K * A)) :
  NoDup s.*1 → (k, a) ∈ s → get k s = Some a.
Proof.
  induction s as [|[k' a'] s IH]; csimpl; [by intros _ ?%elem_of_nil|].
  intros [Hk' Hnd]%NoDup_cons [[= -> ->]|Hin]%elem_of_cons.
  - by rewrite cmp_refl.
  - destruct (cmp k k') eqn:Hc; [|auto..].
    apply cmp_eq in Hc as ->. destruct Hk'.
    by apply (list_elem_of_fmap_2 fst) in Hin.
Qed.

Section Pivot.
Context {K : Type} `{CmpLaws K, EqDecision K}.
Implicit Types (stats : list (batter_stat K)).

Lemma pivot_Raise stats :
  ¬ NoDup (pivot_key <$> stats) →
  pivot stats = Raise (ValueError "Index contains duplicate entries, cannot reshape").
Proof. intros Hdup. unfold pivot. by rewrite decide_False. Qed.

(** X3. [pivot] raises its [ValueError] exactly when an (index, column)
    pair repeats.  Otherwise the matrix has one row per batter and one
    column per delivery type of the table, both ascending; the entry of
    a pair that has a row is that row's [avg_strike_rate], and the
    entry of a pair without a row is missing. *)
Theorem pivot_matrix stats :
  (¬ NoDup (pivot_key <$> stats) →
   pivot stats = Raise (ValueError "Index contains duplicate entries, cannot reshape")) ∧
  (NoDup (pivot_key <$> stats) →
   ∃ pv, pivot stats = Ok pv ∧
     ascending (pv_index pv) ∧ ascending (pv_columns pv) ∧
     (∀ b, b ∈ pv_index pv ↔ ∃ st, st ∈ stats ∧ bs_batter st = b) ∧
     (∀ c, c ∈ pv_columns pv ↔ ∃ st, st ∈ stats ∧ bs_delivery_type st = c) ∧
     length (pv_values pv) = length (pv_index pv) ∧
     Forall (λ row, length row = length (pv_columns pv)) (pv_values pv) ∧
     ∀ i j b c row,
       pv_index pv !! i = Some b → pv_columns pv !! j = Some c →
       pv_values pv !! i = Some row →
       (∀ st, st ∈ stats → pivot_key st = (b, c) →
          row !! j = Some (avg_strike_rate st)) ∧
       ((∀ st, st ∈ stats → pivot_key st ≠ (b, c)) → row !! j = Some None)).
Proof.
  split; [apply pivot_Raise|]. intros Hnd.
  unfold pivot. rewrite decide_True by done. eexists. split; [done|]. simpl.
  set (entries := (λ s, (pivot_key s, avg_strike_rate s)) <$> stats).
  assert (entries.*1 = pivot_key <$> stats) as Hkeys.
  { unfold entries. by rewrite <-list_fmap_compose. }
  split_and!.
  - apply sort_unique_ascending.
  - apply sort_unique_ascending.
  - intros b. rewrite elem_of_sort_unique, list_elem_of_fmap. naive_solver.
  - intros c. rewrite elem_of_sort_unique, list_elem_of_fmap. naive_solver.
  - by rewrite length_fmap.
  - apply Forall_fmap, Forall_forall. intros b _. simpl. by rewrite length_fmap.
  - intros i j b c row Hb Hc Hrow.
    rewrite list_lookup_fmap, Hb in Hrow. injection Hrow as <-.
    rewrite list_lookup_fmap, Hc. simpl. split.
    + intros st Hst Hkey.
      rewrite (get_NoDup (b, c) (avg_strike_rate st)); [done|by rewrite Hkeys|].
      unfold entries. apply list_elem_of_fmap. exists st. by rewrite Hkey.
    + intros Hnone. rewrite get_None; [done|]. rewrite Hkeys.
      intros (st & Hkey & Hst)%list_elem_of_fmap. by eapply Hnone.
Qed.

(** X4. The matrix of the heatmap has at most 20 rows, all of them
    batters chosen by [nlargest], and each of its columns is a delivery
    type of some row of such a batter. *)
Theorem heatmap_matrix_size stats (pv : pivot_table K) :
  pivot (top_batter_stats stats) = Ok pv →
  length (pv_index pv) ≤ 20 ∧
  (∀ b, b ∈ pv_index pv → b ∈ top_batters stats) ∧
  (∀ c, c ∈ pv_columns pv →
     ∃ st, st ∈ stats ∧ bs_batter st ∈ top_batters stats ∧
           bs_delivery_type st = c).
Proof.
  unfold pivot. case_decide; [|done]. intros [= <-]. simpl.
  assert (∀ b, b ∈ sort_unique (bs_batter <$> top_batter_stats stats) →
            b ∈ top_batters stats) as Hsub.
  { intros b. rewrite elem_of_sort_unique, list_elem_of_fmap.
    intros (st & -> & (st0 & -> & Htop & _)%elem_of_top_batter_stats). done. }
  split_and!; [|done|].
  - transitivity (length (top_batters stats)).
    + apply submseteq_length, NoDup_submseteq; [|done].
      apply ascending_NoDup, sort_unique_ascending.
    + unfold top_batters, nlargest. rewrite length_fmap, length_take. lia.
  - intros c. rewrite elem_of_sort_unique, list_elem_of_fmap.
    intros (st & -> & (st0 & -> & Htop & Hst0)%elem_of_top_batter_stats).
    by exists st0.
Qed.
End Pivot.

(** ** The total column of the bar chart *)

Section Totals.
Context {K : Type} `{CmpLaws K, EqDecision K}.
Implicit Types (table : list (clustered K)) (t : trends K).

Lemma position_is_Some (c : nat) (cols : list nat) :
  is_Some (position c cols) ↔ c ∈ cols.
Proof.
  unfold position. rewrite fmap_is_Some. split.
  - intros [[i x] Hf]. apply list_find_Some in Hf as (Hi & -> & _).
    by eapply list_elem_of_lookup_2.
  - intros Hc. eapply list_find_elem_of; [exact Hc|done].
Qed.

Lemma select_Raise (wanted : list nat) t (k : nat) :
  k ∈ wanted → k ∉ columns t →
  select wanted t =
    Raise (KeyError (show_list (filter (λ c, c ∉ columns t) wanted)
                     +:+ " not in index")).
Proof.
  intros Hk Hout. unfold select.
  destruct (mapM _ wanted) as [positions|] eqn:Hm; [|done].
  assert (is_Some (mapM (M:=option) (λ c, position c (columns t)) wanted)) as Hs
    by (by rewrite Hm).
  apply mapM_is_Some in Hs. rewrite Forall_forall in Hs.
  specialize (Hs k Hk). simpl in Hs. by apply position_is_Some in Hs.
Qed.

Lemma bowler_trends_row_length table (b : K) (cs : list nat) :
  (b, cs) ∈ counts (bowler_trends table) →
  length cs = length (columns (bowler_trends table)).
Proof. intros [_ ->]%bowler_trends_index. by rewrite length_fmap. Qed.

Lemma bowler_trends_row_total table (b : K) (cs : list nat) :
  (b, cs) ∈ counts (bowler_trends table) →
  foldr Nat.add 0 cs = length (filter (λ r, bowler (delivery r) = Some b) table).
Proof.
  intros [_ ->]%bowler_trends_index.
  apply (count_by_column (λ r, bowler (delivery r) = Some b) delivery_type).
  - apply ascending_NoDup, bowler_trends_columns_ascending.
  - apply Forall_forall. intros r Hr Hb. apply bowler_trends_columns.
    exists r. by rewrite Hb.
Qed.

Lemma select_all (rows : list (K * list nat)) :
  Forall (λ row, length row.2 = 4) rows →
  (λ row : K * list nat, omap (λ p, row.2 !! p) [0; 1; 2; 3]) <$> rows = snd <$> rows.
Proof.
  intros Hrows. apply list_fmap_ext. intros i [b cs] Hi%list_elem_of_lookup_2.
  rewrite Forall_forall in Hrows. specialize (Hrows _ Hi). simpl in *.
  by destruct cs as [|? [|? [|? [|? [|]]]]].
Qed.

Lemma zip_with_snd {A B C} (f : A * B → B → C) (l : list (A * B)) :
  zip_with f l (snd <$> l) = (λ x, f x x.2) <$> l.
Proof. induction l as [|x l IH]; csimpl; by rewrite ?IH. Qed.

Lemma with_total_counts_cases table :
  (∀ k, k ∈ [0; 1; 2; 3] → k ∉ columns (bowler_trends table) →
     with_total (bowler_trends table) =
       Raise (KeyError
                (show_list (filter (λ c, c ∉ columns (bowler_trends table))
                                   [0; 1; 2; 3])
                 +:+ " not in index"))) ∧
  (columns (bowler_trends table) = [0; 1; 2; 3] →
     with_total (bowler_trends table) =
       Ok ((λ row, (row, length (filter (λ r, bowler (delivery r) = Some row.1)
                                        table)))
             <$> counts (bowler_trends table))).
Proof.
  split.
  - intros k Hk Hout. unfold with_total.
    by rewrite (select_Raise _ _ k).
  - intros Hcols. unfold with_total, select. rewrite Hcols. simpl. f_equal.
    rewrite select_all.
    + rewrite zip_with_snd. apply list_fmap_ext.
      intros i [b cs] Hi%list_elem_of_lookup_2. simpl. f_equal.
      by apply bowler_trends_row_total.
    + apply Forall_forall. intros [b cs] Hrow. simpl.
      apply bowler_trends_row_length in Hrow. by rewrite Hrow, Hcols.
Qed.
(** X5. The total column is computed only when the table has the four
    columns 0, 1, 2, 3; a missing one raises a [KeyError] that names
    the missing columns.  When the columns are exactly 0, 1, 2, 3 the
    total of a bowler is the number of the bowler's rows. *)
Theorem with_total_counts_rows table :
  (∀ k, k ∈ [0; 1; 2; 3] → k ∉ columns (bowler_trends table) →
     with_total (bowler_trends table) =
       Raise (KeyError
                (show_list (filter (λ c, c ∉ columns (bowler_trends table))
                                   [0; 1; 2; 3])
                 +:+ " not in index"))) ∧
  (columns (bowler_trends table) = [0; 1; 2; 3] →
     with_total (bowler_trends table) =
       Ok ((λ row, (row, length (filter (λ r, bowler (delivery r) = Some row.1)
                                        table)))
             <$> counts (bowler_trends table))).
Proof. apply with_total_counts_cases. Qed.
End Totals.

Section BarChart.
Context `{Libraries}.


End BarChart.

(** ** Groups partition the table *)

Section Partition.
Context {K R : Type} `{CmpLaws K, EqDecision K}.

Lemma add_row_rows (k : K) (r : R) (gs : list (K * list R)) :
  mjoin (add_row k r gs).*2 ≡ₚ r :: mjoin gs.*2.
Proof.
  induction gs as [|[k' g] gs IH]; csimpl; [done|].
  destruct (cmp k k'); csimpl; [done..|].
  rewrite IH. by rewrite Permutation_middle.
Qed.

Lemma groupby_rows (key : R → option K) (df : list R) :
  mjoin (groupby key df).*2 ≡ₚ filter (λ r, is_Some (key r)) df.
Proof.
  induction df as [|r df IH]; csimpl; [done|]. rewrite filter_cons.
  destruct (key r) as [k|] eqn:Hk.
  - rewrite decide_True by done. by rewrite add_row_rows, IH.
  - rewrite decide_False by (by intros []). done.
Qed.
End Partition.

Lemma total_length_join {A} (ls : list (list A)) :
  foldr Nat.add 0 (length <$> ls) = length (mjoin ls).
Proof.
  induction ls as [|l ls IH]; csimpl; [done|]. by rewrite length_app, IH.
Qed.

Lemma qsum_app (l1 l2 : list Qc) : qsum (l1 ++ l2) = (qsum l1 + qsum l2)%Qc.
Proof.
  induction l1 as [|q l1 IH]; simpl; [by rewrite Qcplus_0_l|].
  by rewrite IH, Qcplus_assoc.
Qed.

Lemma qsum_Permutation (l1 l2 : list Qc) : l1 ≡ₚ l2 → qsum l1 = qsum l2.
Proof.
  induction 1 as [|q l1 l2 _ IH|p q l|l1 l2 l3 _ IH1 _ IH2]; simpl.
  - done.
  - by rewrite IH.
  - rewrite !Qcplus_assoc. by rewrite (Qcplus_comm p q).
  - by rewrite IH1.
Qed.

Lemma qsum_join (ls : list (list Qc)) : qsum (qsum <$> ls) = qsum (mjoin ls).
Proof.
  induction ls as [|l ls IH]; csimpl; [done|]. by rewrite qsum_app, IH.
Qed.

(** Splitting a count by any key column. *)
Lemma total_add_key {B} (f g : B → nat) (keys : list B) :
  foldr Nat.add 0 ((λ c, f c + g c) <$> keys) =
  foldr Nat.add 0 (f <$> keys) + foldr Nat.add 0 (g <$> keys).
Proof. induction keys as [|c keys IH]; csimpl; [done|]. rewrite IH. lia. Qed.

Lemma total_indicator_key {B} (P : B → Prop) `{∀ c, Decision (P c)} (keys : list B) :
  foldr Nat.add 0 ((λ c, if decide (P c) then 1 else 0) <$> keys) =
  length (filter P keys).
Proof.
  induction keys as [|c keys IH]; csimpl; [done|].
  rewrite filter_cons, IH. by case_decide.
Qed.

Lemma filter_eq_NoDup_key `{EqDecision B} (x : B) (keys : list B) :
  NoDup keys → length (filter (λ c, x = c) keys) = if decide (x ∈ keys) then 1 else 0.
Proof.
  induction 1 as [|c keys Hc Hnd IH]; [done|].
  rewrite filter_cons. destruct (decide (x = c)) as [->|Hne].
  - rewrite decide_True by left. rewrite decide_False in IH by done.
    simpl. by rewrite IH.
  - rewrite IH. repeat case_decide; set_solver.
Qed.

Lemma count_by_key {A} `{EqDecision B} (col : A → B) (l : list A) (keys : list B) :
  NoDup keys →
  foldr Nat.add 0 ((λ c, length (filter (λ a, col a = c) l)) <$> keys)
  = length (filter (λ a, col a ∈ keys) l).
Proof.
  intros Hnd. induction l as [|a l IH]; csimpl.
  - induction keys as [|c keys IHc]; csimpl; [done|].
    apply NoDup_cons in Hnd as [_ Hnd]. by rewrite IHc.
  - assert ((λ c, length (filter (λ a0, col a0 = c) (a :: l))) <$> keys
            = (λ c, (if decide (col a = c) then 1 else 0)
                    + length (filter (λ a0, col a0 = c) l)) <$> keys) as ->.
    { apply list_fmap_ext. intros i c _. rewrite filter_cons. by case_decide. }
    rewrite total_add_key, IH, total_indicator_key, filter_eq_NoDup_key by done.
    rewrite filter_cons. by case_decide.
Qed.

(** ** The three written tables together *)

Lemma batter_key_is_Some {K} (r : clustered K) :
  is_Some (batter_key r) ↔ is_Some (batter (delivery r)).
Proof. unfold batter_key. by rewrite fmap_is_Some. Qed.

Lemma bowler_trends_bowlers `{CmpLaws K, EqDecision K} (table : list (clustered K))
    (b : K) :
  b ∈ (counts (bowler_trends table)).*1 ↔
  ∃ r, r ∈ table ∧ bowler (delivery r) = Some b.
Proof.
  rewrite list_elem_of_fmap. split.
  - intros ([b' cs] & -> & Hrow). by apply bowler_trends_index in Hrow as [? _].
  - intros Hr. eexists (b, _). split; [done|]. by apply bowler_trends_index.
Qed.

Lemma bowler_trends_bowlers_ascending `{CmpLaws K, EqDecision K}
    (table : list (clustered K)) :
  ascending (counts (bowler_trends table)).*1.
Proof.
  unfold bowler_trends, unstack; simpl. rewrite <-list_fmap_compose.
  change (fst ∘ _) with (@id K). rewrite list_fmap_id.
  apply sort_unique_ascending.
Qed.

Lemma qsum_fmap_join {A} (f : A → Qc) (ls : list (list A)) :
  qsum (f <$> mjoin ls) = qsum ((λ l, qsum (f <$> l)) <$> ls).
Proof.
  induction ls as [|l ls IH]; csimpl; [done|].
  by rewrite fmap_app, qsum_app, IH.
Qed.

Section WrittenTables.
Context `{Libraries}.

(** X7. The written tables account for every sampled row: the
    [balls_faced] of the batter rows add up to the number of rows of
    the clustered table, their [total_runs] to the runs of the table,
    and the counts of the bowler table to the number of rows again. *)
Theorem written_tables_account_for_sample (global : RandomState)
    (match_df : list match_info) (delivery_df : list (ball value)) (fr : frame) :
  analysis global match_df delivery_df = Ok fr →
  foldr Nat.add 0 (balls_faced <$> (frame_tables fr).1.1) = length (values fr) ∧
  qsum (total_runs <$> (frame_tables fr).1.1)
    = qsum (or_zero ∘ runs_batter ∘ delivery <$> values fr) ∧
  foldr Nat.add 0 (foldr Nat.add 0 ∘ snd <$> counts (frame_tables fr).1.2)
    = length (values fr).
Proof.
  intros Hrun. pose proof (values_complete _ _ _ _ Hrun) as Hcomplete.
  apply analysis_Ok in Hrun as (s & labels & _ & _ & _ & _ & Hv & ->).
  rewrite Hv in *. set (table := zip_with Clustered (fillna s) labels) in *.
  unfold tables, export_trends; cbn [fst snd counts].
  assert (filter (λ r, is_Some (batter_key r)) table = table) as Hkeys.
  { apply list_filter_Forall. eapply Forall_impl; [exact Hcomplete|].
    intros r Hr. apply batter_key_is_Some, Hr. }
  assert (∀ kg, kg ∈ groupby batter_key table →
            Forall (complete ∘ delivery) kg.2 ∧ kg.2 ≠ []) as Hgroups.
  { intros [k g] [-> Hne]%elem_of_groupby. split; [|done].
    apply Forall_forall. intros r [_ Hr]%list_elem_of_filter.
    by eapply Forall_forall in Hcomplete. }
  split_and!.
  - unfold batter_stats. rewrite <-!list_fmap_compose.
    rewrite <-Hkeys at 2. rewrite <-(groupby_rows batter_key table).
    rewrite <-total_length_join, <-list_fmap_compose. f_equal.
    apply list_fmap_ext. intros i [[b t] g] Hg%list_elem_of_lookup_2.
    destruct (Hgroups _ Hg) as [Hc Hne].
    destruct (agg_batter_complete b t g Hc Hne) as (_ & _ & Heq).
    unfold compose. by rewrite Heq.
  - unfold batter_stats. rewrite <-!list_fmap_compose.
    transitivity (qsum (or_zero ∘ runs_batter ∘ delivery
                          <$> mjoin (groupby batter_key table).*2)).
    + rewrite qsum_fmap_join, <-list_fmap_compose. f_equal.
      apply list_fmap_ext. intros i [[b t] g] Hg%list_elem_of_lookup_2.
      destruct (Hgroups _ Hg) as [Hc Hne].
      destruct (agg_batter_complete b t g Hc Hne) as (_ & _ & Heq).
      unfold compose. by rewrite Heq.
    + apply qsum_Permutation. by rewrite groupby_rows, Hkeys.
  - rewrite <-!list_fmap_compose.
    assert (foldr Nat.add 0 ∘ snd ∘ prod_map Some id <$> counts (bowler_trends table)
            = (λ b, length (filter (λ r, bowler (delivery r) = Some b) table))
                <$> (counts (bowler_trends table)).*1) as ->.
    { rewrite <-list_fmap_compose. apply list_fmap_ext.
      intros i [b cs] Hrow%list_elem_of_lookup_2. simpl.
      by apply bowler_trends_row_total. }
    assert ((λ b, length (filter (λ r, bowler (delivery r) = Some b) table))
              <$> (counts (bowler_trends table)).*1
            = (λ c, length (filter (λ r, bowler (delivery r) = c) table))
                <$> (Some <$> (counts (bowler_trends table)).*1)) as ->.
    { generalize ((counts (bowler_trends table)).*1). intros l.
      induction l as [|b l IH]; csimpl; by rewrite ?IH. }
    rewrite count_by_key.
    + f_equal. apply list_filter_Forall, Forall_forall. intros r Hr.
      assert (is_Some (bowler (delivery r))) as [b Hb].
      { eapply Forall_forall in Hcomplete; [|exact Hr]. apply Hcomplete. }
      rewrite Hb. apply list_elem_of_fmap_2, bowler_trends_bowlers. eauto.
    + apply NoDup_fmap_2; [apply _|].
      apply ascending_NoDup, bowler_trends_bowlers_ascending.
Qed.

Lemma economy_mean_complete (g : list (clustered value)) :
  Forall (complete ∘ delivery) g → g ≠ [] →
  let es := or_zero ∘ bowler_economy ∘ delivery <$> g in
  bowler_economy ∘ delivery <$> g = Some <$> es ∧
  mean (bowler_economy ∘ delivery <$> g)
    = Some (qsum es / Qc_of_nat (length g))%Qc.
Proof.
  intros Hg Hne. simpl.
  assert (bowler_economy ∘ delivery <$> g
          = Some <$> (or_zero ∘ bowler_economy ∘ delivery <$> g)) as Hes.
  { apply (complete_column (bowler_economy ∘ delivery)).
    eapply Forall_impl; [exact Hg|]. intros r Hr. apply Hr. }
  split; [done|]. rewrite Hes, mean_Some, length_fmap; [done|]. by destruct g.
Qed.

(** X8. [output_bowler_economy.csv] has one row per bowler of the
    clustered table, in ascending order of bowler, with the mean of
    [bowler_economy] over the bowler's rows; its bowler column is the
    bowler column of [output_bowler_trends.csv]. *)
Theorem bowler_economy_rows (global : RandomState)
    (match_df : list match_info) (delivery_df : list (ball value)) (fr : frame) :
  analysis global match_df delivery_df = Ok fr →
  (frame_tables fr).2.*1 = (counts (frame_tables fr).1.2).*1 ∧
  (∃ bowlers, (frame_tables fr).2.*1 = Some <$> bowlers ∧ ascending bowlers ∧
     ∀ v, v ∈ bowlers ↔ ∃ r, r ∈ values fr ∧ bowler (delivery r) = Some v) ∧
  (∀ v m, (Some v, m) ∈ (frame_tables fr).2 →
     let g := filter (λ r, bowler (delivery r) = Some v) (values fr) in
     ∃ es : list Qc,
       bowler_economy ∘ delivery <$> g = Some <$> es ∧ g ≠ [] ∧
       m = Some (qsum es / Qc_of_nat (length g))%Qc).
Proof.
  intros Hrun. pose proof (values_complete _ _ _ _ Hrun) as Hcomplete.
  apply analysis_Ok in Hrun as (s & labels & _ & _ & _ & _ & Hv & ->).
  rewrite Hv in *. set (table := zip_with Clustered (fillna s) labels) in *.
  unfold tables, export_trends; cbn [fst snd counts].
  assert ((export_economy Some <$> bowler_economy_mean table).*1
          = Some <$> (groupby (bowler ∘ delivery) table).*1) as Hecon.
  { unfold bowler_economy_mean. rewrite <-!list_fmap_compose.
    apply list_fmap_ext. by intros i [b g] _. }
  assert ((groupby (bowler ∘ delivery) table).*1
          = (counts (bowler_trends table)).*1) as Hsame.
  { apply ascending_ext;
      [apply groupby_ascending|apply bowler_trends_bowlers_ascending|].
    intros b. rewrite groupby_keys, elem_of_categories, list_elem_of_fmap.
    rewrite bowler_trends_bowlers. naive_solver. }
  split_and!.
  - rewrite Hecon, Hsame, <-!list_fmap_compose.
    apply list_fmap_ext. by intros i [b cs] _.
  - exists (groupby (bowler ∘ delivery) table).*1.
    split_and!; [done|apply groupby_ascending|].
    intros v. rewrite groupby_keys, elem_of_categories, list_elem_of_fmap.
    naive_solver.
  - intros v m ([b mb] & [= <- ->] & Hin)%list_elem_of_fmap.
    unfold bowler_economy_mean in Hin.
    apply list_elem_of_fmap in Hin as ([b' g] & [= -> ->] & [-> Hne]%elem_of_groupby).
    simpl in *.
    set (g := filter _ table) in *.
    destruct (economy_mean_complete g) as [Hes Hmean]; [|done|].
    { apply Forall_forall. intros r [_ Hr]%list_elem_of_filter.
      by eapply Forall_forall in Hcomplete. }
    eexists. split_and!; [exact Hes|done|exact Hmean].
Qed.

(** X9. The rows of [output_batter_patterns.csv] are in strictly
    ascending order of (batter, delivery type), a batter that is a
    number (the filled 0) before the batters that are strings. *)
Theorem batter_patterns_sorted (global : RandomState)
    (match_df : list match_info) (delivery_df : list (ball value)) (fr : frame) :
  analysis global match_df delivery_df = Ok fr →
  ∃ keys : list (value * nat),
    (λ st, (bs_batter st, bs_delivery_type st)) <$> (frame_tables fr).1.1
      = (λ k, (Some k.1, k.2)) <$> keys ∧
    ascending keys.
Proof.
  intros (s & labels & _ & _ & _ & _ & _ & ->)%analysis_Ok.
  set (table := zip_with Clustered (fillna s) labels).
  exists (groupby batter_key table).*1. split; [|apply groupby_ascending].
  unfold tables, batter_stats; simpl. rewrite <-!list_fmap_compose.
  apply list_fmap_ext. by intros i [[b t] g] _.
Qed.
End WrittenTables.

(** ** What a run leaves behind *)

Section RunsUnder.
Context `{Libraries}.

Lemma main_under_no_faults (global : RandomState) (w : World) :
  main_under no_faults global w = main global w.
Proof. reflexivity. Qed.

Lemma try_under_run (fl : Faults) (body : M unit) (prefix : string) (w : World) :
  try_except body (λ e, print_under fl (prefix +:+ str e)) w =
  match body w with
  | (w', Ok _) => (w', Ok ())
  | (w', Raise e') =>
      match print_fault fl (prefix +:+ str e') with
      | Some e => (w', Raise e)
      | None => (MkWorld (files w') (stdout w' ++ [prefix +:+ str e']), Ok ())
      end
  end.
Proof.
  unfold try_except, print_under. destruct (body w) as [w' [[]|e']]; [done|].
  by destruct (print_fault fl _).
Qed.

Lemma heatmap_step_under_world (fl : Faults) (f : frame)
    (stats : list (batter_stat nat)) (w : World) :
  stdout (heatmap_step_under fl f stats w).1 = stdout w ∧
  ∀ p, p ≠ "batter_strike_rate_heatmap_top20.png" →
    files (heatmap_step_under fl f stats w).1 !! p = files w !! p.
Proof.
  unfold heatmap_step_under, write_file_under, write_file, lift, mbind, M_bind.
  destruct (pivot _) as [pv|e]; [|done]. simpl.
  destruct (plot_heatmap _) as [image|e]; [|done]. simpl.
  destruct (write_fault fl _) as [[e [c|]]|]; simpl; split; try done;
    intros p Hp; by rewrite lookup_insert_ne.
Qed.

Lemma bar_step_under_world (fl : Faults) (f : frame) (t : trends nat) (w : World) :
  stdout (bar_step_under fl f t w).1 = stdout w ∧
  ∀ p, p ≠ "bowler_delivery_distribution_top20.png" →
    files (bar_step_under fl f t w).1 !! p = files w !! p.
Proof.
  unfold bar_step_under, write_file_under, write_file, lift, mbind, M_bind.
  destruct (with_total _) as [totals|e]; [|done]. simpl.
  destruct (plot_bars _) as [image|e]; [|done]. simpl.
  destruct (write_fault fl _) as [[e [c|]]|]; simpl; split; try done;
    intros p Hp; by rewrite lookup_insert_ne.
Qed.

Lemma try_under_world (fl : Faults) (body : M unit) (prefix : string) (w : World) :
  let r := try_except body (λ e, print_under fl (prefix +:+ str e)) w in
  files r.1 = files (body w).1 ∧
  (∃ more, stdout r.1 = stdout (body w).1 ++ more) ∧
  ∀ e, r.2 = Raise e → ∃ e', print_fault fl (prefix +:+ str e') = Some e.
Proof.
  simpl. rewrite try_under_run. destruct (body w) as [w' [[]|e']]; simpl.
  - split_and!; [done|exists []; by rewrite app_nil_r|done].
  - destruct (print_fault fl _) as [e|] eqn:He; simpl.
    + split_and!; [done|exists []; by rewrite app_nil_r|].
      intros ? [= <-]. eauto.
    + split_and!; [done|by eauto|done].
Qed.

Lemma visualize_under_run (fl : Faults) (f : frame)
    (stats : list (batter_stat nat)) (t : trends nat) (w : World) :
  visualize_under fl f stats t w =
  match try_except (heatmap_step_under fl f stats)
          (λ e, print_under fl ("⚠️ Strike rate heatmap generation failed: " +:+ str e))
          w with
  | (w1, Ok _) =>
      try_except (bar_step_under fl f t)
        (λ e, print_under fl ("⚠️ Horizontal bar chart generation failed: " +:+ str e))
        w1
  | (w1, Raise e) => (w1, Raise e)
  end.
Proof. reflexivity. Qed.

Lemma visualize_under_Raise (fl : Faults) (f : frame)
    (stats : list (batter_stat nat)) (t : trends nat) (w : World) (e : Exception) :
  (visualize_under fl f stats t w).2 = Raise e →
  (∃ e', print_fault fl ("⚠️ Strike rate heatmap generation failed: " +:+ str e')
           = Some e ∨
         print_fault fl ("⚠️ Horizontal bar chart generation failed: " +:+ str e')
           = Some e) ∧
  (∃ more, stdout (visualize_under fl f stats t w).1 = stdout w ++ more) ∧
  ∀ p, p ≠ "batter_strike_rate_heatmap_top20.png" →
       p ≠ "bowler_delivery_distribution_top20.png" →
    files (visualize_under fl f stats t w).1 !! p = files w !! p.
Proof.
  rewrite visualize_under_run.
  pose proof (try_under_world fl (heatmap_step_under fl f stats)
                "⚠️ Strike rate heatmap generation failed: " w) as (Hf1 & [m1 Hs1] & Hr1).
  pose proof (heatmap_step_under_world fl f stats w) as [Hs1' Hf1'].
  cbv zeta in Hf1, Hs1, Hr1.
  destruct (try_except (heatmap_step_under fl f stats) _ w) as [w1 [[]|e1]].
  - pose proof (try_under_world fl (bar_step_under fl f t)
                  "⚠️ Horizontal bar chart generation failed: " w1) as (Hf2 & [m2 Hs2] & Hr2).
    pose proof (bar_step_under_world fl f t w1) as [Hs2' Hf2'].
    cbv zeta in Hf2, Hs2, Hr2. cbn [fst snd] in *.
    destruct (try_except (bar_step_under fl f t) _ w1) as [w2 r2].
    cbn [fst snd] in *. intros Hraise.
    destruct (Hr2 e Hraise) as [e' He']. split_and!; [by eauto| |].
    + exists (m1 ++ m2). by rewrite Hs2, Hs2', Hs1, Hs1', app_assoc.
    + intros p Hp1 Hp2. by rewrite Hf2, Hf2', Hf1, Hf1'.
  - cbn [fst snd] in *. intros [= <-].
    destruct (Hr1 e1 eq_refl) as [e' He']. split_and!; [by eauto| |].
    + exists m1. by rewrite Hs1, Hs1'.
    + intros p Hp1 Hp2. by rewrite Hf1, Hf1'.
Qed.
Lemma main_under_run (fl : Faults) (global : RandomState) (w : World) :
  main_under fl global w =
  match (read_match_info "cleaned_match_info.csv" w).2 with
  | Raise e => (w, Raise e)
  | Ok match_df =>
      match (read_deliveries "cleaned_deliveries.csv" w).2 with
      | Raise e => (w, Raise e)
      | Ok delivery_df =>
          match analysis global match_df delivery_df with
          | Raise e => (w, Raise e)
          | Ok f =>
              match export_under fl (frame_tables f) w with
              | (w1, Ok _) =>
                  visualize_under fl f (batter_stats (rows f))
                                  (bowler_trends (rows f)) w1
              | (w1, Raise e) => (w1, Raise e)
              end
          end
      end
  end.
Proof.
  unfold main_under. unfold mbind at 1, M_bind. unfold read_match_info at 1 2.
  destruct (files w !! "cleaned_match_info.csv") as [[]|]; simpl; try done.
  unfold mbind at 1, M_bind. unfold read_deliveries at 1 2.
  destruct (files w !! "cleaned_deliveries.csv") as [[]|]; simpl; done.
Qed.

(** What the export leaves behind: all three tables and the completion
    line, or the tables written before the operation that is refused. *)
Lemma export_under_cases (fl : Faults) (out : outputs) (w : World) :
  let r := export_under fl out w in
  (r.2 = Ok () ∧ r.1 = (export out w).1)
  ∨ (∃ e written path c later remains,
       r.2 = Raise e ∧
       csv_files out = written ++ (path, c) :: later ∧
       write_fault fl path = Some (e, remains) ∧
       Forall (λ pc, files r.1 !! pc.1 = Some pc.2) written ∧
       files r.1 !! path = from_option Some (files w !! path) remains ∧
       (∀ p, p ∉ written.*1 → p ≠ path → files r.1 !! p = files w !! p) ∧
       stdout r.1 = stdout w)
  ∨ (∃ e, r.2 = Raise e ∧
       print_fault fl "✅ Analysis complete. CSVs saved." = Some e ∧
       files r.1 = files (export out w).1 ∧ stdout r.1 = stdout w).
Proof.
  unfold export_under, export, csv_files, write_file_under, print_under,
    write_file, print, lift, mbind, M_bind. simpl.
  destruct (write_fault fl "output_batter_patterns.csv") as [[e1 c1]|] eqn:H1.
  { right. left. exists e1, [], "output_batter_patterns.csv", (BatterCsv out.1.1),
      [("output_bowler_trends.csv", TrendsCsv out.1.2);
       ("output_bowler_economy.csv", EconomyCsv out.2)], c1.
    simpl. split_and!; [done..| |by intros; destruct c1; simplify_map_eq|done].
    destruct c1; by simplify_map_eq. }
  simpl.
  destruct (write_fault fl "output_bowler_trends.csv") as [[e2 c2]|] eqn:H2.
  { right. left. exists e2, [("output_batter_patterns.csv", BatterCsv out.1.1)],
      "output_bowler_trends.csv", (TrendsCsv out.1.2),
      [("output_bowler_economy.csv", EconomyCsv out.2)], c2.
    simpl. split_and!; [done..| | | |done].
    - repeat constructor; simpl. destruct c2; by simplify_map_eq.
    - destruct c2; by simplify_map_eq.
    - intros p Hp1 Hp2. rewrite not_elem_of_cons in Hp1. destruct Hp1 as [Hp1 _].
      destruct c2; by simplify_map_eq. }
  simpl.
  destruct (write_fault fl "output_bowler_economy.csv") as [[e3 c3]|] eqn:H3.
  { right. left. exists e3, [("output_batter_patterns.csv", BatterCsv out.1.1);
                             ("output_bowler_trends.csv", TrendsCsv out.1.2)],
      "output_bowler_economy.csv", (EconomyCsv out.2), [], c3.
    simpl. split_and!; [done..| | | |done].
    - repeat constructor; simpl; destruct c3; by simplify_map_eq.
    - destruct c3; by simplify_map_eq.
    - intros p Hp1 Hp2. rewrite !not_elem_of_cons in Hp1. destruct Hp1 as (? & ? & _).
      destruct c3; by simplify_map_eq. }
  simpl.
  destruct (print_fault fl _) as [e|] eqn:Hp; simpl.
  - right. right. by exists e.
  - by left.
Qed.

(** X10. A run that ends with an exception, output operations that are
    refused included.  Either the exception comes from reading one of
    the two inputs or from the steps up to the clustering, and then
    nothing is written or printed.  Or a [to_csv] is refused: the tables
    before it in the order of lines 53-55 are written, the refused path
    holds what the failed write left or is as before, no other file is
    touched and nothing is printed.  Or a [print] is refused: all three
    tables are written, and either it is the completion line and
    nothing is printed, or it is the warning of a chart step and the
    completion line is printed.  Nothing else ends the run. *)
Theorem failed_run_outputs (fl : Faults) (global : RandomState) (w : World)
    (e : Exception) :
  (main_under fl global w).2 = Raise e →
  let w' := (main_under fl global w).1 in
  (w' = w ∧
   ((read_match_info "cleaned_match_info.csv" w).2 = Raise e ∨
    (read_deliveries "cleaned_deliveries.csv" w).2 = Raise e ∨
    ∃ match_df delivery_df,
      files w !! "cleaned_match_info.csv" = Some (MatchCsv match_df) ∧
      files w !! "cleaned_deliveries.csv" = Some (DeliveryCsv delivery_df) ∧
      analysis global match_df delivery_df = Raise e))
  ∨
  ∃ match_df delivery_df fr,
    files w !! "cleaned_match_info.csv" = Some (MatchCsv match_df) ∧
    files w !! "cleaned_deliveries.csv" = Some (DeliveryCsv delivery_df) ∧
    analysis global match_df delivery_df = Ok fr ∧
    ((∃ written path c later remains,
        csv_files (frame_tables fr) = written ++ (path, c) :: later ∧
        write_fault fl path = Some (e, remains) ∧
        Forall (λ pc, files w' !! pc.1 = Some pc.2) written ∧
        files w' !! path = from_option Some (files w !! path) remains ∧
        (∀ p, p ∉ written.*1 → p ≠ path → files w' !! p = files w !! p) ∧
        stdout w' = stdout w)
     ∨
     (Forall (λ pc, files w' !! pc.1 = Some pc.2) (csv_files (frame_tables fr)) ∧
      (∀ p, p ∉ output_paths → files w' !! p = files w !! p) ∧
      ((print_fault fl "✅ Analysis complete. CSVs saved." = Some e ∧
        stdout w' = stdout w)
       ∨
       ((∃ e', print_fault fl ("⚠️ Strike rate heatmap generation failed: "
                               +:+ str e') = Some e ∨
               print_fault fl ("⚠️ Horizontal bar chart generation failed: "
                               +:+ str e') = Some e) ∧
        ∃ more, stdout w' =
                stdout w ++ "✅ Analysis complete. CSVs saved." :: more)))).
Proof.
  rewrite main_under_run. unfold read_match_info, read_deliveries.
  destruct (files w !! "cleaned_match_info.csv") as [[match_df| | | | |]|] eqn:Hm;
    cbn [fst snd]; try (intros [= <-]; left; by auto).
  destruct (files w !! "cleaned_deliveries.csv") as [[|delivery_df| | | |]|] eqn:Hd;
    cbn [fst snd]; try (intros [= <-]; left; by auto).
  destruct (analysis global match_df delivery_df) as [fr|e'] eqn:Hrun; cbn [fst snd].
  2:{ intros [= <-]. left. split; [done|]. right. right. eauto. }
  intros Hraise. right. exists match_df, delivery_df, fr. split_and!; [done..|].
  pose proof (export_under_cases fl (frame_tables fr) w) as Hexp. cbv zeta in Hexp.
  destruct (export_under fl (frame_tables fr) w) as [w1 r1]. cbn [fst snd] in Hexp.
  destruct Hexp as [[-> ->]|[(e1 & written & path & c & later & remains & -> & Hexp)
                            |(e1 & -> & Hp & Hf & Hs)]].
  - pose proof (visualize_under_Raise fl fr (batter_stats (rows fr))
                  (bowler_trends (rows fr)) _ e Hraise) as (Hline & [more Hmore] & Hfiles).
    right. split_and!.
    + unfold csv_files. repeat constructor; cbn [fst snd];
        rewrite Hfiles, export_files by done; by simplify_map_eq.
    + intros p Hp. unfold output_paths, csv_outputs in Hp.
      rewrite !not_elem_of_app, !not_elem_of_cons in Hp.
      destruct Hp as [(? & ? & ? & _) (? & ? & _)].
      rewrite Hfiles, export_files by done. by simplify_map_eq.
    + right. split; [done|]. exists more. rewrite Hmore.
      unfold export, print, write_file, mbind, M_bind. simpl.
      by rewrite <-app_assoc.
  - cbn [fst snd] in *. injection Hraise as <-. left.
    exists written, path, c, later, remains. exact Hexp.
  - cbn [fst snd] in *. injection Hraise as <-. right. split_and!.
    + unfold csv_files. repeat constructor; cbn [fst snd];
        rewrite Hf, export_files; by simplify_map_eq.
    + intros p Hp'. unfold output_paths, csv_outputs in Hp'.
      rewrite !not_elem_of_app, !not_elem_of_cons in Hp'.
      destruct Hp' as [(? & ? & ? & _) _].
      rewrite Hf, export_files. by simplify_map_eq.
    + left. by split.
Qed.
End RunsUnder.

Section Runs.
Context `{Libraries}.

(** X11. A run that completes has read both tables and analysed them;
    afterwards the three CSV files hold the three tables, standard
    output has grown by the completion line followed by the warning of
    the heatmap step, if it failed, and then the warning of the bar
    chart step, if it failed, and every file other than the five
    outputs is as before. *)
Theorem completed_run_outputs (global : RandomState) (w : World) :
  (main global w).2 = Ok () →
  ∃ match_df delivery_df fr,
    files w !! "cleaned_match_info.csv" = Some (MatchCsv match_df) ∧
    files w !! "cleaned_deliveries.csv" = Some (DeliveryCsv delivery_df) ∧
    analysis global match_df delivery_df = Ok fr ∧
    files (main global w).1 !! "output_batter_patterns.csv"
      = Some (BatterCsv (frame_tables fr).1.1) ∧
    files (main global w).1 !! "output_bowler_trends.csv"
      = Some (TrendsCsv (frame_tables fr).1.2) ∧
    files (main global w).1 !! "output_bowler_economy.csv"
      = Some (EconomyCsv (frame_tables fr).2) ∧
    stdout (main global w).1
      = stdout w ++ ["✅ Analysis complete. CSVs saved."]
          ++ heatmap_warning fr ++ bar_warning fr ∧
    ∀ path, path ∉ output_paths →
      files (main global w).1 !! path = files w !! path.
Proof.
  rewrite main_run. unfold read_match_info, read_deliveries.
  destruct (files w !! "cleaned_match_info.csv") as [[match_df| | | | |]|] eqn:Hm;
    cbn [snd]; try done.
  destruct (files w !! "cleaned_deliveries.csv") as [[|delivery_df| | | |]|] eqn:Hd;
    cbn [snd]; try done.
  destruct (analysis global match_df delivery_df) as [fr|e'] eqn:Hrun; [|done].
  intros _. exists match_df, delivery_df, fr. split_and!; [done..| | | | |].
  - rewrite visualize_files, export_files by (unfold csv_outputs; set_solver).
    by simplify_map_eq.
  - rewrite visualize_files, export_files by (unfold csv_outputs; set_solver).
    by simplify_map_eq.
  - rewrite visualize_files, export_files by (unfold csv_outputs; set_solver).
    by simplify_map_eq.
  - rewrite visualize_run, try_bar_stdout, try_heatmap_stdout.
    unfold heatmap_warning, bar_warning. simpl. by rewrite <-!app_assoc.
  - intros path Hpath. unfold output_paths, csv_outputs in Hpath.
    rewrite !not_elem_of_app, !not_elem_of_cons in Hpath.
    destruct Hpath as [(? & ? & ? & _) (? & ? & _)].
    rewrite visualize_run, try_bar_files, try_heatmap_files, export_files by done.
    by simplify_map_eq.
Qed.
End Runs.

(** ** Sampling any table *)

Lemma round_fraction_this (n : nat) :
  (this (Q2Qc (3 # 10) * Qc_of_nat n)%Qc == (3 # 10) * inject_Z (Z.of_nat n))%Q.
Proof. unfold Qcmult, Q2Qc; simpl. rewrite !Qred_correct. reflexivity. Qed.

Lemma round_fraction_bounds (n : nat) :
  let size := Z.to_nat (round (Q2Qc (3 # 10) * Qc_of_nat n)%Qc) in
  (n ≤ 1 → size = 0) ∧ (1 ≤ n → size < n) ∧ (2 ≤ n → 1 ≤ size).
Proof.
  pose proof (round_nearest (Q2Qc (3 # 10) * Qc_of_nat n)%Qc) as [Hlo Hhi].
  rewrite round_fraction_this in Hlo, Hhi.
  pose proof (round_fraction_nonneg n) as Hz.
  set (z := round _) in *. simpl.
  split_and!.
  - intros Hn. assert (z ≤ 0)%Z; [|lia].
    destruct (decide (z ≤ 0)%Z) as [|Hpos]; [done|]. exfalso.
    assert (1 ≤ z)%Z as H1 by lia. rewrite Zle_Qle in H1.
    assert (Z.of_nat n ≤ 1)%Z as H2 by lia. rewrite Zle_Qle in H2.
    change (inject_Z 1) with 1%Q in *. lra.
  - intros Hn. assert (z < Z.of_nat n)%Z; [|lia].
    destruct (decide (z < Z.of_nat n)%Z) as [|Hge]; [done|]. exfalso.
    assert (Z.of_nat n ≤ z)%Z as H1 by lia. rewrite Zle_Qle in H1.
    assert (1 ≤ Z.of_nat n)%Z as H2 by lia. rewrite Zle_Qle in H2.
    change (inject_Z 1) with 1%Q in *. lra.
  - intros Hn. assert (1 ≤ z)%Z; [|lia].
    destruct (decide (1 ≤ z)%Z) as [|Hsmall]; [done|]. exfalso.
    assert (z ≤ 0)%Z as H1 by lia. rewrite Zle_Qle in H1.
    assert (2 ≤ Z.of_nat n)%Z as H2 by lia. rewrite Zle_Qle in H2.
    change (inject_Z 0) with 0%Q in *. change (inject_Z 2) with 2%Q in *. lra.
Qed.

Lemma omap_lookup_seq {A} (l : list A) :
  omap (λ i, l !! i) (seq 0 (length l)) = l.
Proof.
  induction l as [|x l IH] using rev_ind; [done|].
  rewrite length_app. simpl. rewrite Nat.add_1_r, seq_S, omap_app. simpl.
  rewrite list_lookup_middle by done. simpl.
  f_equal. etransitivity; [|exact IH].
  apply list_omap_ext, Forall2_same_length_lookup. split; [done|].
  intros i j k Hj Hk. assert (j = k) as -> by congruence.
  apply lookup_seq in Hk as [-> ?]. by apply lookup_app_l.
Qed.

Lemma mapM_omap {A B} (f : A → option B) (l : list A) (k : list B) :
  mapM f l = Some k → omap f l = k.
Proof.
  intros Hk%mapM_Some. induction Hk as [|x y l k Hx _ IH]; [done|].
  csimpl. rewrite Hx. simpl. by f_equal.
Qed.

Section Sampling.
Context `{Libraries}.

(** X12. [DataFrame.sample(frac=0.3)] on any table.  A seed that numpy
    refuses, one outside 0 .. 2**32 - 1, makes the call raise a
    [ValueError].  With no seed, or with a seed numpy accepts, the call
    never raises; the sampled rows together with the rows left out are
    a rearrangement of the table, so no row is drawn twice; a table of
    at most one row gives an empty sample; a table of two or more rows
    gives at least one row and never the whole table. *)
Theorem sample_draws_without_replacement {R} (global : RandomState)
    (random_state : option Z) (df : list R) :
  (∀ g n, permutation g n ≡ₚ seq 0 n) →
  (∀ seed, random_state = Some seed → ¬ (0 ≤ seed < 2 ^ 32)%Z →
     sample global (Q2Qc (3 # 10)) random_state df
       = Raise (ValueError "Seed must be between 0 and 2**32 - 1")) ∧
  ((∀ seed, random_state = Some seed → (0 ≤ seed < 2 ^ 32)%Z) →
     ∃ s rest,
       sample global (Q2Qc (3 # 10)) random_state df = Ok s ∧
       s ++ rest ≡ₚ df ∧
       (length df ≤ 1 → s = []) ∧
       (2 ≤ length df → 1 ≤ length s < length df)).
Proof.
  intros Hperm. split.
  { intros seed -> Hseed. unfold sample, check_random_state.
    by rewrite decide_False. }
  intros Hseed.
  assert (∃ g, check_random_state global random_state = Ok g) as [g Hg].
  { unfold check_random_state. destruct random_state as [seed|]; [|by eauto].
    rewrite decide_True by auto. by eauto. }
  unfold sample, choice. rewrite Hg. simpl.
  set (n := length df).
  set (size := Z.to_nat (round (Q2Qc (3 # 10) * Qc_of_nat n)%Qc)).
  pose proof (round_fraction_bounds n) as (Hsmall & Hlt & Hpos). fold size in Hsmall, Hlt, Hpos.
  assert (size ≤ n) as Hsize by apply round_fraction_le.
  rewrite decide_False by lia. simpl. unfold take_rows.
  assert (is_Some (mapM (λ i, df !! i) (permutation g n))) as [all Hall].
  { apply mapM_is_Some, Forall_forall. intros i Hi. simpl.
    rewrite (Hperm _ _) in Hi. apply elem_of_seq in Hi.
    apply lookup_lt_is_Some. fold n. lia. }
  assert (all ≡ₚ df) as Hdf.
  { rewrite <-(mapM_omap _ _ _ Hall), (Hperm g n). unfold n.
    by rewrite omap_lookup_seq. }
  assert (mapM (λ i, df !! i) (take size (permutation g n)) = Some (take size all))
    as ->.
  { apply mapM_Some, Forall2_take. by apply mapM_Some. }
  exists (take size all), (drop size all).
  assert (length all = n) as Hlen by (by rewrite Hdf).
  split_and!; [done|by rewrite take_drop|..].
  - intros Hn. rewrite Hsmall by done. done.
  - intros Hn. rewrite length_take_le by lia. lia.
Qed.

End Sampling.

(** ** The categorical columns in memory *)

Lemma Forall2_zip_with_Clustered {K R} (P : clustered K → R → Prop) (g : R → ball K)
    (df : list R) (labels : list nat) :
  length labels = length df →
  (∀ d l, d ∈ df → P (Clustered (g d) l) d) →
  Forall2 P (zip_with Clustered (g <$> df) labels) df.
Proof.
  revert labels. induction df as [|d df IH]; intros [|l labels] Hlen HP;
    simplify_eq/=; constructor.
  - apply HP. left.
  - apply IH; [done|]. intros d' l' Hd'. apply HP. by right.
Qed.

Lemma code_of_lookup (levels : list value) (c : cell) :
  (∀ v, c = Some v → v ∈ levels) → is_Some c →
  ∃ i, c ≫= code_of levels = Some i ∧ i < length levels ∧ levels !! i = c.
Proof.
  intros Hin [v ->]. csimpl.
  destruct (code_of_elem_of levels v) as [i Hi]; [by apply Hin|].
  exists i. pose proof (code_of_Some _ _ _ Hi) as Hl.
  split_and!; [done| |done]. by eapply lookup_lt_Some.
Qed.

Section Categorical.
Context `{Libraries}.

(** X13. Lines 25-34 keep the filled sample intact: the table in memory
    has one row per sampled row, in the same order; the two categorical
    columns hold a code below the number of categories in every row,
    never a missing code, and read back as the filled sample's values,
    all other columns being untouched; the categories are without
    repetition and are exactly the values that occur in the column; and
    two rows carry the same code exactly when they carry the same
    value. *)
Theorem category_codes_lossless (global : RandomState)
    (match_df : list match_info) (delivery_df : list (ball value))
    (fr : frame) (s : list (ball value)) :
  analysis global match_df delivery_df = Ok fr →
  sample global (Q2Qc (3 # 10)) (Some 42%Z) (merge delivery_df match_df) = Ok s →
  Forall2 (λ r d,
     decode_ball (batters fr) (bowlers fr) (delivery r) = d ∧
     (∃ i, batter (delivery r) = Some i ∧ i < length (batters fr)) ∧
     (∃ j, bowler (delivery r) = Some j ∧ j < length (bowlers fr)))
    (rows fr) (fillna s) ∧
  NoDup (batters fr) ∧ NoDup (bowlers fr) ∧
  (∀ v, v ∈ batters fr ↔ ∃ d, d ∈ fillna s ∧ batter d = Some v) ∧
  (∀ v, v ∈ bowlers fr ↔ ∃ d, d ∈ fillna s ∧ bowler d = Some v) ∧
  ∀ r1 r2, r1 ∈ rows fr → r2 ∈ rows fr →
    (batter (delivery r1) = batter (delivery r2) ↔
     batter (delivery r1) ≫= decode (batters fr) =
     batter (delivery r2) ≫= decode (batters fr)) ∧
    (bowler (delivery r1) = bowler (delivery r2) ↔
     bowler (delivery r1) ≫= decode (bowlers fr) =
     bowler (delivery r2) ≫= decode (bowlers fr)).
Proof.
  unfold analysis, prepare. intros Hrun Hs. rewrite Hs in Hrun. simpl in Hrun.
  apply result_bind_Ok in Hrun as (table & Hcl & [= <-]).
  apply cluster_Ok in Hcl as (X & labels & _ & _ & Hlen & ->).
  rewrite length_fmap in Hlen. simpl.
  set (bats := categories (batter <$> fillna s)).
  set (bowls := categories (bowler <$> fillna s)).
  assert (∀ d v, d ∈ fillna s → batter d = Some v → v ∈ bats) as Hbat.
  { intros d v Hd Hv. apply elem_of_categories, list_elem_of_fmap. eauto. }
  assert (∀ d v, d ∈ fillna s → bowler d = Some v → v ∈ bowls) as Hbowl.
  { intros d v Hd Hv. apply elem_of_categories, list_elem_of_fmap. eauto. }
  assert (∀ d, d ∈ fillna s → complete d) as Hcomplete.
  { apply Forall_forall, fillna_complete. }
  assert (NoDup bats) as Hnd1 by apply ascending_NoDup, categories_ascending.
  assert (NoDup bowls) as Hnd2 by apply ascending_NoDup, categories_ascending.
  assert (Forall2 (λ r d,
     decode_ball bats bowls (delivery r) = d ∧
     (∃ i, batter (delivery r) = Some i ∧ i < length bats) ∧
     (∃ j, bowler (delivery r) = Some j ∧ j < length bowls))
    (zip_with Clustered (recode_row bats bowls <$> fillna s) labels) (fillna s))
    as Hrows.
  { apply Forall2_zip_with_Clustered; [done|]. intros d l Hd. simpl.
    destruct (Hcomplete d Hd) as (Hb1 & Hb2 & _).
    destruct (code_of_lookup bats (batter d)) as (i & Hi & Hilt & Hil); [by eauto|done|].
    destruct (code_of_lookup bowls (bowler d)) as (j & Hj & Hjlt & Hjl); [by eauto|done|].
    split_and!; [|by eauto..].
    destruct d. unfold decode_ball; simpl in *. rewrite Hi, Hj. simpl.
    unfold decode. by rewrite Hil, Hjl. }
  split_and!; [done..| | |].
  - intros v. unfold bats. rewrite elem_of_categories, list_elem_of_fmap. naive_solver.
  - intros v. unfold bowls. rewrite elem_of_categories, list_elem_of_fmap. naive_solver.
  - intros r1 r2 Hr1 Hr2.
    assert (∀ r, r ∈ zip_with Clustered (recode_row bats bowls <$> fillna s) labels →
      (∃ i, batter (delivery r) = Some i ∧ i < length bats) ∧
      (∃ j, bowler (delivery r) = Some j ∧ j < length bowls)) as Hcode.
    { intros r (k & Hk)%list_elem_of_lookup.
      destruct (Forall2_lookup_l _ _ _ _ _ Hrows Hk) as (d & _ & _ & ? & ?). done. }
    destruct (Hcode r1 Hr1) as ((i1 & -> & Hi1) & (j1 & -> & Hj1)).
    destruct (Hcode r2 Hr2) as ((i2 & -> & Hi2) & (j2 & -> & Hj2)).
    unfold decode; simpl.
    apply lookup_lt_is_Some in Hi1 as [v1 Hv1].
    apply lookup_lt_is_Some in Hi2 as [v2 Hv2].
    apply lookup_lt_is_Some in Hj1 as [u1 Hu1].
    apply lookup_lt_is_Some in Hj2 as [u2 Hu2].
    split.
    + split.
      * intros Heq. by simplify_eq.
      * rewrite Hv1, Hv2. intros [= <-]. f_equal.
        eapply NoDup_lookup; [exact Hnd1|exact Hv1|exact Hv2].
    + split.
      * intros Heq. by simplify_eq.
      * rewrite Hu1, Hu2. intros [= <-]. f_equal.
        eapply NoDup_lookup; [exact Hnd2|exact Hu1|exact Hu2].
Qed.

End Categorical.

(** ** The join on [match_id] *)

Lemma merge_cons (d : ball value) (delivery_df : list (ball value))
    (match_df : list match_info) :
  merge (d :: delivery_df) match_df =
  (join_row d <$> filter (λ m, m_match_id m = match_id d) match_df) ++
  merge delivery_df match_df.
Proof. done. Qed.

Lemma list_filter_Forall_not {A} (P : A → Prop) `{∀ a, Decision (P a)} (l : list A) :
  Forall (λ a, ¬ P a) l → filter P l = [].
Proof.
  induction 1 as [|a l Ha Hl IH]; [done|].
  by rewrite filter_cons, decide_False, IH.
Qed.

Lemma filter_unique_key (match_df : list match_info) (k : cell) :
  NoDup (m_match_id <$> match_df) →
  length (filter (λ m, m_match_id m = k) match_df) ≤ 1.
Proof.
  induction match_df as [|m match_df IH]; csimpl; [lia|].
  intros [Hm Hnd]%NoDup_cons. rewrite filter_cons.
  destruct (decide (m_match_id m = k)) as [<-|]; [|by apply IH].
  simpl. rewrite list_filter_Forall_not; [done|].
  apply Forall_forall. intros m' Hm' Heq. apply Hm, list_elem_of_fmap. eauto.
Qed.

(** X14. The inner join of line 16.  For every key, the joined table has
    (number of deliveries with the key) times (number of match rows with
    the key) rows, so a match row listed twice doubles the deliveries of
    its match.  If no [match_id] occurs twice in the match table, the join has at
    most as many rows as the delivery table, and exactly as many if every
    delivery's key occurs in the match table. *)
Theorem merge_row_multiplicity (delivery_df : list (ball value))
    (match_df : list match_info) :
  (∀ k, length (filter (λ r, match_id r = k) (merge delivery_df match_df)) =
        length (filter (λ d, match_id d = k) delivery_df) *
        length (filter (λ m, m_match_id m = k) match_df)) ∧
  (NoDup (m_match_id <$> match_df) →
     length (merge delivery_df match_df) ≤ length delivery_df ∧
     ((∀ d, d ∈ delivery_df → match_id d ∈ m_match_id <$> match_df) →
        length (merge delivery_df match_df) = length delivery_df)).
Proof.
  split.
  - intros k. induction delivery_df as [|d delivery_df IH]; [done|].
    rewrite merge_cons, filter_app, length_app, IH, filter_cons.
    destruct (decide (match_id d = k)) as [Hk|Hk]; simpl.
    + rewrite list_filter_Forall, length_fmap, Hk; [lia|].
      apply Forall_forall. by intros r (m & -> & _)%list_elem_of_fmap.
    + rewrite list_filter_Forall_not; [done|].
      apply Forall_forall. by intros r (m & -> & _)%list_elem_of_fmap.
  - intros Hnd.
    assert (∀ d, length (join_row d <$> filter (λ m, m_match_id m = match_id d) match_df) ≤ 1)
      as Hle.
    { intros d. rewrite length_fmap. by apply filter_unique_key. }
    split.
    + induction delivery_df as [|d delivery_df IH]; [done|].
      rewrite merge_cons, length_app. simpl. specialize (Hle d). lia.
    + induction delivery_df as [|d delivery_df IH]; intros Hall; [done|].
      rewrite merge_cons, length_app. simpl.
      rewrite IH by (intros d' Hd'; apply Hall; by right). f_equal.
      specialize (Hle d). rewrite length_fmap in Hle |- *.
      assert (match_id d ∈ m_match_id <$> match_df) as (m & Hm & Hin)%list_elem_of_fmap
        by (apply Hall; left).
      assert (m ∈ filter (λ m, m_match_id m = match_id d) match_df) as Hf
        by (by apply list_elem_of_filter).
      destruct (filter _ match_df) as [|? [|]]; simpl in *; [by apply elem_of_nil in Hf|done|lia].
Qed.

(** ** The further properties on concrete runs *)


Lemma nlargest_largest_witness :
  length (nlargest 2 [(1, Qc_of_Z 3); (2, Qc_of_Z 5); (3, Qc_of_Z 4)]) = 2 ∧
  descending (nlargest 2 [(1, Qc_of_Z 3); (2, Qc_of_Z 5); (3, Qc_of_Z 4)]).
Proof.
  destruct (nlargest_largest 2 [(1, Qc_of_Z 3); (2, Qc_of_Z 5); (3, Qc_of_Z 4)])
    as (Hlen & Hdesc & _).
  split; [exact Hlen|exact Hdesc].
Defined.

Lemma top_batters_highest_totals_witness :
  CmpLaws nat ∧
  length (sort_unique (bs_batter <$> demo_stats)) ≤ 20 ∧
  top_batter_stats demo_stats = clip_row <$> demo_stats.
Proof.
  assert (length (sort_unique (bs_batter <$> demo_stats)) ≤ 20) as Hlen.
  { apply Nat.leb_le. vm_compute. reflexivity. }
  split; [exact nat_cmp_laws|]. split; [exact Hlen|].
  exact (proj2 (proj2 (proj2 (proj2
           (top_batters_highest_totals (H0:=nat_cmp_laws) demo_stats)))) Hlen).
Defined.

Lemma pivot_matrix_witness :
  CmpLaws nat ∧
  NoDup (pivot_key <$> demo_stats) ∧
  ∃ pv, pivot demo_stats = Ok pv ∧
    ascending (pv_index pv) ∧ ascending (pv_columns pv) ∧
    length (pv_values pv) = length (pv_index pv).
Proof.
  assert (NoDup (pivot_key <$> demo_stats)) as Hnd.
  { apply (bool_decide_unpack _). vm_compute. exact I. }
  split; [exact nat_cmp_laws|]. split; [exact Hnd|].
  destruct (proj2 (pivot_matrix (H0:=nat_cmp_laws) demo_stats) Hnd)
    as (pv & Hpv & Hi & Hc & _ & _ & Hlen & _).
  exists pv. split; [exact Hpv|]. split; [exact Hi|]. split; [exact Hc|exact Hlen].
Defined.

Lemma heatmap_matrix_size_witness :
  CmpLaws nat ∧
  ∃ pv, pivot (top_batter_stats demo_stats) = Ok pv ∧ length (pv_index pv) ≤ 20.
Proof.
  split; [exact nat_cmp_laws|].
  assert (∃ pv, pivot (top_batter_stats demo_stats) = Ok pv) as [pv Hpv].
  { eexists. vm_compute. reflexivity. }
  exists pv. split; [exact Hpv|].
  exact (proj1 (heatmap_matrix_size (H0:=nat_cmp_laws) demo_stats pv Hpv)).
Defined.

Lemma with_total_counts_rows_witness :
  CmpLaws nat ∧
  1 ∈ [0; 1; 2; 3] ∧ (1 ∉ columns (bowler_trends (rows flat_frame))) ∧
  with_total (bowler_trends (rows flat_frame)) =
    Raise (KeyError
             (show_list (filter (λ c, c ∉ columns (bowler_trends (rows flat_frame)))
                                [0; 1; 2; 3])
              +:+ " not in index")) ∧
  columns (bowler_trends (rows demo_frame)) = [0; 1; 2; 3] ∧
  with_total (bowler_trends (rows demo_frame)) =
    Ok ((λ row, (row, length (filter (λ r, bowler (delivery r) = Some row.1)
                                     (rows demo_frame))))
          <$> counts (bowler_trends (rows demo_frame))).
Proof.
  assert (1 ∈ [0; 1; 2; 3]) as Hin
    by apply list_elem_of_further, list_elem_of_here.
  assert (1 ∉ columns (bowler_trends (rows flat_frame))) as Hout.
  { assert (columns (bowler_trends (rows flat_frame)) = [0]) as ->
      by (vm_compute; reflexivity).
    intros Hone. apply list_elem_of_singleton in Hone. discriminate Hone. }
  assert (columns (bowler_trends (rows demo_frame)) = [0; 1; 2; 3]) as Hcols
    by (vm_compute; reflexivity).
  split; [exact nat_cmp_laws|]. split; [exact Hin|]. split; [exact Hout|].
  split.
  - exact (proj1 (with_total_counts_rows (H0:=nat_cmp_laws) (rows flat_frame))
                 1 Hin Hout).
  - split; [exact Hcols|].
    exact (proj2 (with_total_counts_rows (H0:=nat_cmp_laws) (rows demo_frame)) Hcols).
Defined.


Lemma written_tables_account_for_sample_witness :
  analysis (H:=demo) 0%Z demo_matches demo_deliveries = Ok demo_frame ∧
  foldr Nat.add 0 (balls_faced <$> (frame_tables demo_frame).1.1)
    = length (values demo_frame) ∧
  foldr Nat.add 0 (foldr Nat.add 0 ∘ snd <$> counts (frame_tables demo_frame).1.2)
    = length (values demo_frame).
Proof.
  split; [exact demo_analysis|].
  destruct (written_tables_account_for_sample (H:=demo) 0%Z demo_matches
              demo_deliveries demo_frame demo_analysis) as (Hballs & _ & Hcounts).
  split; [exact Hballs|exact Hcounts].
Defined.

Lemma bowler_economy_rows_witness :
  analysis (H:=demo) 0%Z demo_matches demo_deliveries = Ok demo_frame ∧
  (frame_tables demo_frame).2.*1 = (counts (frame_tables demo_frame).1.2).*1.
Proof.
  split; [exact demo_analysis|].
  exact (proj1 (bowler_economy_rows (H:=demo) 0%Z demo_matches demo_deliveries
                  demo_frame demo_analysis)).
Defined.

Lemma batter_patterns_sorted_witness :
  analysis (H:=demo) 0%Z demo_matches demo_deliveries = Ok demo_frame ∧
  ∃ keys : list (value * nat),
    (λ st, (bs_batter st, bs_delivery_type st)) <$> (frame_tables demo_frame).1.1
      = (λ k, (Some k.1, k.2)) <$> keys ∧
    ascending keys.
Proof.
  split; [exact demo_analysis|].
  exact (batter_patterns_sorted (H:=demo) 0%Z demo_matches demo_deliveries
           demo_frame demo_analysis).
Defined.

Lemma failed_run_outputs_witness :
  (main_under (H:=demo) refused_trends 0%Z demo_world).2
    = Raise (OtherError "PermissionError" "Permission denied") ∧
  stdout (main_under (H:=demo) refused_trends 0%Z demo_world).1
    = stdout demo_world.
Proof.
  assert ((main_under (H:=demo) refused_trends 0%Z demo_world).2
          = Raise (OtherError "PermissionError" "Permission denied")) as Hraise.
  { vm_compute. reflexivity. }
  split; [exact Hraise|].
  destruct (failed_run_outputs (H:=demo) refused_trends 0%Z demo_world
              (OtherError "PermissionError" "Permission denied") Hraise)
    as [[Hw _]|(match_df & delivery_df & fr & _ & _ & _ &
                [(written & path & c & later & remains & _ & _ & _ & _ & _ & Hout)
                |(_ & _ & [[Hp _]|[[e' [Hp|Hp]] _]])])].
  - rewrite Hw. reflexivity.
  - exact Hout.
  - discriminate Hp.
  - discriminate Hp.
  - discriminate Hp.
Defined.

Lemma completed_run_outputs_witness :
  (main (H:=demo) 0%Z demo_world).2 = Ok () ∧
  ∃ fr,
    files (main (H:=demo) 0%Z demo_world).1 !! "output_batter_patterns.csv"
      = Some (BatterCsv (frame_tables fr).1.1) ∧
    stdout (main (H:=demo) 0%Z demo_world).1
      = stdout demo_world ++ ["✅ Analysis complete. CSVs saved."]
          ++ heatmap_warning (H:=demo) fr ++ bar_warning (H:=demo) fr.
Proof.
  assert ((main (H:=demo) 0%Z demo_world).2 = Ok ()) as Hrun.
  { vm_compute. reflexivity. }
  split; [exact Hrun|].
  destruct (completed_run_outputs (H:=demo) 0%Z demo_world Hrun)
    as (match_df & delivery_df & fr & _ & _ & _ & Hbat & _ & _ & Hout & _).
  exists fr. split; [exact Hbat|exact Hout].
Defined.

Lemma sample_draws_without_replacement_witness :
  (∀ g n, permutation (Libraries:=demo) g n ≡ₚ seq 0 n) ∧
  ¬ (0 ≤ -1 < 2 ^ 32)%Z ∧
  sample (H:=demo) 0%Z (Q2Qc (3 # 10)) (Some (-1)%Z) demo_deliveries
    = Raise (ValueError "Seed must be between 0 and 2**32 - 1") ∧
  (∀ seed, Some 7%Z = Some seed → (0 ≤ seed < 2 ^ 32)%Z) ∧
  2 ≤ length demo_deliveries ∧
  ∃ s rest,
    sample (H:=demo) 0%Z (Q2Qc (3 # 10)) (Some 7%Z) demo_deliveries = Ok s ∧
    s ++ rest ≡ₚ demo_deliveries ∧
    1 ≤ length s < length demo_deliveries.
Proof.
  assert (¬ (0 ≤ -1 < 2 ^ 32)%Z) as Hbad by lia.
  assert (∀ seed, Some 7%Z = Some seed → (0 ≤ seed < 2 ^ 32)%Z) as Hgood.
  { intros seed Hseed. injection Hseed as <-. lia. }
  assert (2 ≤ length demo_deliveries) as Hlen.
  { apply Nat.leb_le. vm_compute. reflexivity. }
  split; [exact demo_permutation_spec|]. split; [exact Hbad|].
  split.
  { exact (proj1 (sample_draws_without_replacement (H:=demo) 0%Z (Some (-1)%Z)
                    demo_deliveries demo_permutation_spec) (-1)%Z eq_refl Hbad). }
  split; [exact Hgood|]. split; [exact Hlen|].
  destruct (proj2 (sample_draws_without_replacement (H:=demo) 0%Z (Some 7%Z)
                     demo_deliveries demo_permutation_spec) Hgood)
    as (s & rest & Hs & Hperm & _ & Hbig).
  exists s, rest. split; [exact Hs|]. split; [exact Hperm|exact (Hbig Hlen)].
Defined.

Lemma category_codes_lossless_witness :
  analysis (H:=demo) 0%Z demo_matches demo_deliveries = Ok demo_frame ∧
  sample (H:=demo) 0%Z (Q2Qc (3 # 10)) (Some 42%Z)
         (merge demo_deliveries demo_matches) = Ok demo_sample ∧
  NoDup (batters demo_frame) ∧ NoDup (bowlers demo_frame).
Proof.
  split; [exact demo_analysis|]. split; [exact demo_sampling|].
  destruct (category_codes_lossless (H:=demo) 0%Z demo_matches demo_deliveries
              demo_frame demo_sample demo_analysis demo_sampling)
    as (_ & Hbat & Hbowl & _).
  split; [exact Hbat|exact Hbowl].
Defined.

Lemma merge_row_multiplicity_witness :
  NoDup (m_match_id <$> demo_matches) ∧
  (∀ d, d ∈ flat_deliveries → match_id d ∈ m_match_id <$> demo_matches) ∧
  length (merge flat_deliveries demo_matches) = length flat_deliveries.
Proof.
  assert (NoDup (m_match_id <$> demo_matches)) as Hnd.
  { apply (bool_decide_unpack _). vm_compute. exact I. }
  assert (∀ d, d ∈ flat_deliveries → match_id d ∈ m_match_id <$> demo_matches)
    as Hall.
  { apply (proj1 (Forall_forall _ _)). apply (bool_decide_unpack _).
    vm_compute. exact I. }
  split; [exact Hnd|]. split; [exact Hall|].
  exact (proj2 (proj2 (merge_row_multiplicity flat_deliveries demo_matches) Hnd) Hall).
Defined.
